(** * SyncToS3Activity: a shallow embedding of [S3SyncTool]

    The development follows [SyncToS3Activity.py]: one class, [S3SyncTool],
    whose [sync] method builds a local and a remote manifest, classifies
    every path, uploads through a thread pool and deletes sequentially.

    Python values are modelled as follows.
    - [str] is [string]; [bytes] is [list byte].
    - [Dict[str, str]] is an association list with unique keys that keeps
      the insertion order, as CPython's [dict] does (module [PyDict]).
    - An exception is a value of [exn]; a fallible call returns [exn + A].
    - [print], [s3.upload_file] and [s3.delete_object] are events of a trace;
      a method returns its trace and the exception it raised, if any.
    - [os.path] is CPython's [posixpath] (module [PosixPath]): the host is
      taken to be a POSIX one.
    - [hashlib.md5] is RFC 1321 (module [MD5]).
    - The file system and the [boto3] client are the fields of [env]: what
      the walk yields, what a file reads as, what the bucket lists, and how
      the client answers an upload or a delete.
    - The thread pool interleaves the events of its tasks along a schedule
      that is a parameter of [sync]; statements hold for every schedule. *)

From Stdlib Require Import String Ascii List ZArith Lia Bool Arith.
From Stdlib Require Import Strings.Byte Sorting.Permutation DecimalString.
Import ListNotations.

Local Open Scope string_scope.
Local Open Scope list_scope.

(** ** hashlib.md5 *)

Module MD5.

Local Open Scope Z_scope.

Definition mask32 : Z := 0xffffffff.

Definition add32 (a b : Z) : Z := Z.land (a + b) mask32.

Definition not32 (a : Z) : Z := Z.lxor a mask32.

Definition rotl32 (x : Z) (c : Z) : Z :=
  Z.lor (Z.land (Z.shiftl x c) mask32) (Z.shiftr x (32 - c)).

Definition shifts : list Z :=
  [ 7; 12; 17; 22; 7; 12; 17; 22; 7; 12; 17; 22; 7; 12; 17; 22;
    5; 9; 14; 20; 5; 9; 14; 20; 5; 9; 14; 20; 5; 9; 14; 20;
    4; 11; 16; 23; 4; 11; 16; 23; 4; 11; 16; 23; 4; 11; 16; 23;
    6; 10; 15; 21; 6; 10; 15; 21; 6; 10; 15; 21; 6; 10; 15; 21 ].

Definition sines : list Z :=
  [ 0xd76aa478; 0xe8c7b756; 0x242070db; 0xc1bdceee;
    0xf57c0faf; 0x4787c62a; 0xa8304613; 0xfd469501;
    0x698098d8; 0x8b44f7af; 0xffff5bb1; 0x895cd7be;
    0x6b901122; 0xfd987193; 0xa679438e; 0x49b40821;
    0xf61e2562; 0xc040b340; 0x265e5a51; 0xe9b6c7aa;
    0xd62f105d; 0x02441453; 0xd8a1e681; 0xe7d3fbc8;
    0x21e1cde6; 0xc33707d6; 0xf4d50d87; 0x455a14ed;
    0xa9e3e905; 0xfcefa3f8; 0x676f02d9; 0x8d2a4c8a;
    0xfffa3942; 0x8771f681; 0x6d9d6122; 0xfde5380c;
    0xa4beea44; 0x4bdecfa9; 0xf6bb4b60; 0xbebfbc70;
    0x289b7ec6; 0xeaa127fa; 0xd4ef3085; 0x04881d05;
    0xd9d4d039; 0xe6db99e5; 0x1fa27cf8; 0xc4ac5665;
    0xf4292244; 0x432aff97; 0xab9423a7; 0xfc93a039;
    0x655b59c3; 0x8f0ccc92; 0xffeff47d; 0x85845dd1;
    0x6fa87e4f; 0xfe2ce6e0; 0xa3014314; 0x4e0811a1;
    0xf7537e82; 0xbd3af235; 0x2ad7d2bb; 0xeb86d391 ].

(** The four chaining words A, B, C, D. *)
Record state := mkState { sA : Z; sB : Z; sC : Z; sD : Z }.

Definition init : state :=
  mkState 0x67452301 0xefcdab89 0x98badcfe 0x10325476.

Definition byteZ (b : byte) : Z := Z.of_N (Byte.to_N b).

Definition Zbyte (z : Z) : byte :=
  match Byte.of_N (Z.to_N (Z.land z 0xff)) with
  | Some b => b
  | None => x00
  end.

(** Little-endian decoding of the 4 bytes at offset [4 * g] of a block. *)
Definition word_at (block : list byte) (g : nat) : Z :=
  let b i := byteZ (nth (4 * g + i) block x00) in
  b 0%nat + Z.shiftl (b 1%nat) 8 + Z.shiftl (b 2%nat) 16 + Z.shiftl (b 3%nat) 24.

Definition le_bytes (n : nat) (z : Z) : list byte :=
  map (fun i => Zbyte (Z.shiftr z (8 * Z.of_nat i))) (seq 0 n).

Definition step (block : list byte) (st : state) (i : nat) : state :=
  let '(mkState a b c d) := st in
  let '(f, g) :=
    if (i <? 16)%nat then (Z.lor (Z.land b c) (Z.land (not32 b) d), i)
    else if (i <? 32)%nat then
      (Z.lor (Z.land d b) (Z.land (not32 d) c), ((5 * i + 1) mod 16)%nat)
    else if (i <? 48)%nat then
      (Z.lxor b (Z.lxor c d), ((3 * i + 5) mod 16)%nat)
    else (Z.lxor c (Z.lor b (not32 d)), ((7 * i) mod 16)%nat) in
  let f' := add32 (add32 (add32 f a) (nth i sines 0)) (word_at block g) in
  mkState d (add32 b (rotl32 f' (nth i shifts 0))) b c.

Definition compress (st : state) (block : list byte) : state :=
  let '(mkState a b c d) := fold_left (step block) (seq 0 64) st in
  mkState (add32 (sA st) a) (add32 (sB st) b) (add32 (sC st) c) (add32 (sD st) d).

(** Padding: a single 0x80, zeros up to 56 modulo 64, then the bit length
    on 8 little-endian bytes. *)
Definition pad (m : list byte) : list byte :=
  let len := List.length m in
  let zeros := ((55 + 64 - len mod 64) mod 64)%nat in
  m ++ [x80] ++ repeat x00 zeros ++ le_bytes 8 (8 * Z.of_nat len).

Fixpoint blocks (n : nat) (m : list byte) : list (list byte) :=
  match n with
  | O => []
  | S n' => firstn 64 m :: blocks n' (skipn 64 m)
  end.

Definition digest (m : list byte) : list byte :=
  let p := pad m in
  let st := fold_left compress (blocks (List.length p / 64) p) init in
  le_bytes 4 (sA st) ++ le_bytes 4 (sB st) ++ le_bytes 4 (sC st) ++ le_bytes 4 (sD st).

Definition hex_digit (z : Z) : ascii :=
  nth (Z.to_nat z)
      ["0"; "1"; "2"; "3"; "4"; "5"; "6"; "7"; "8"; "9";
       "a"; "b"; "c"; "d"; "e"; "f"]%char "0"%char.

Fixpoint hex (bs : list byte) : string :=
  match bs with
  | [] => ""
  | b :: r =>
      String (hex_digit (Z.shiftr (byteZ b) 4))
        (String (hex_digit (Z.land (byteZ b) 0xf)) (hex r))
  end.

(** [hashlib.md5(m).hexdigest()] *)
Definition hexdigest (m : list byte) : string := hex (digest m).

End MD5.

Definition bytes_of_string (s : string) : list byte := list_byte_of_string s.

(** ** Python [str] methods used by the tool *)

Module PyStr.

Definition slash : ascii := "047"%char.
Definition backslash : ascii := "092"%char.
Definition dquote : ascii := "034"%char.

(** [bool(s)]: a string is truthy when it is not empty. *)
Definition truthy (s : string) : bool :=
  match s with
  | EmptyString => false
  | String _ _ => true
  end.

(** [s.replace(a, b)] for one-character [a] and [b]. *)
Fixpoint replace (a b : ascii) (s : string) : string :=
  match s with
  | EmptyString => EmptyString
  | String c r => String (if Ascii.eqb c a then b else c) (replace a b r)
  end.

(** [s.lstrip(c)] *)
Fixpoint lstrip (c : ascii) (s : string) : string :=
  match s with
  | EmptyString => EmptyString
  | String d r => if Ascii.eqb d c then lstrip c r else s
  end.

(** [s.rstrip(c)] *)
Fixpoint rstrip (c : ascii) (s : string) : string :=
  match s with
  | EmptyString => EmptyString
  | String d r =>
      match rstrip c r with
      | EmptyString => if Ascii.eqb d c then EmptyString else String d EmptyString
      | r' => String d r'
      end
  end.

(** [s.strip(c)] *)
Definition strip (c : ascii) (s : string) : string := rstrip c (lstrip c s).

(** [s.startswith(c)] and [s.endswith(c)] for a one-character [c]. *)
Definition startswith (c : ascii) (s : string) : bool :=
  match s with
  | EmptyString => false
  | String d _ => Ascii.eqb d c
  end.

Fixpoint endswith (c : ascii) (s : string) : bool :=
  match s with
  | EmptyString => false
  | String d EmptyString => Ascii.eqb d c
  | String _ r => endswith c r
  end.

(** [s.split(c)]: never empty, ["".split(c) == [""]]. *)
Fixpoint split (c : ascii) (s : string) : list string :=
  match s with
  | EmptyString => [EmptyString]
  | String d r =>
      if Ascii.eqb d c then EmptyString :: split c r
      else match split c r with
           | [] => [String d EmptyString]
           | h :: t => String d h :: t
           end
  end.

(** [c.join(l)] *)
Fixpoint join (c : ascii) (l : list string) : string :=
  match l with
  | [] => EmptyString
  | [x] => x
  | x :: r => (x ++ String c (join c r))%string
  end.

End PyStr.

(** ** os.path on a POSIX host *)

Module PosixPath.

Import PyStr.

Definition sep : ascii := slash.
Definition curdir : string := ".".
Definition pardir : string := "..".

Definition isabs (p : string) : bool := startswith sep p.

(** [os.path.join(a, b)] *)
Definition join2 (a b : string) : string :=
  if startswith sep b then b
  else if negb (truthy a) || endswith sep a then (a ++ b)%string
  else (a ++ String sep b)%string.

(** The number of leading slashes that [normpath] keeps: 0, 1, or 2 when the
    path starts with exactly two. *)
Definition initial_slashes (p : string) : nat :=
  match p with
  | String a (String b (String c _)) =>
      if Ascii.eqb a sep then
        if Ascii.eqb b sep then if Ascii.eqb c sep then 1 else 2 else 1
      else 0
  | String a (String b EmptyString) =>
      if Ascii.eqb a sep then if Ascii.eqb b sep then 2 else 1 else 0
  | String a EmptyString => if Ascii.eqb a sep then 1 else 0
  | EmptyString => 0
  end.

Definition last_is_pardir (new_comps : list string) : bool :=
  match rev new_comps with
  | [] => false
  | c :: _ => String.eqb c pardir
  end.

Definition is_nil {A} (l : list A) : bool :=
  match l with [] => true | _ => false end.

(** One iteration of the loop of [normpath] over the components. *)
Definition norm_step (slashes : nat) (new_comps : list string) (comp : string)
  : list string :=
  if String.eqb comp "" || String.eqb comp curdir then new_comps
  else if negb (String.eqb comp pardir)
          || (Nat.eqb slashes 0 && is_nil new_comps)
          || (negb (is_nil new_comps) && last_is_pardir new_comps)
       then new_comps ++ [comp]
       else removelast new_comps.

Definition norm_comps (slashes : nat) (comps : list string) : list string :=
  fold_left (norm_step slashes) comps [].

Fixpoint seps (n : nat) : string :=
  match n with
  | O => EmptyString
  | S n' => String sep (seps n')
  end.

(** [os.path.normpath(path)] *)
Definition normpath (path : string) : string :=
  if negb (truthy path) then curdir
  else
    let k := initial_slashes path in
    let p := (seps k ++ PyStr.join sep (norm_comps k (split sep path)))%string in
    if truthy p then p else curdir.

(** [os.path.abspath(path)] in the working directory [cwd]. *)
Definition abspath (cwd : string) (path : string) : string :=
  normpath (if isabs path then path else join2 cwd path).

(** Length of the longest common prefix of two component lists, which is
    what [len(commonprefix([a, b]))] evaluates to. *)
Fixpoint common_len (a b : list string) : nat :=
  match a, b with
  | x :: a', y :: b' => if String.eqb x y then S (common_len a' b') else 0
  | _, _ => 0
  end.

(** The components of an absolute path: [p.lstrip(sep).split(sep)], or the
    empty list when nothing follows the leading separators. *)
Definition tail_list (p : string) : list string :=
  let t := lstrip sep p in
  if truthy t then split sep t else [].

(** [os.path.relpath(path, start)], after CPython's [posixpath]: both paths
    are made absolute and cut into components, the common components are
    dropped and one [..] climbs out of each remaining component of [start].
    [None] stands for the [ValueError] raised on an empty [path]. *)
Definition relpath (cwd : string) (path start : string) : option string :=
  if negb (truthy path) then None
  else
    let start_list := tail_list (abspath cwd start) in
    let path_list := tail_list (abspath cwd path) in
    let i := common_len start_list path_list in
    let rel_list := repeat pardir (List.length start_list - i) ++ skipn i path_list in
    Some (if is_nil rel_list then curdir else PyStr.join sep rel_list).

End PosixPath.

(** ** dict *)

Module PyDict.

Section Dict.

Context {V : Type}.

(** Entries in insertion order; the keys of a well-formed dict are unique. *)
Definition dict : Type := list (string * V).

Definition empty : dict := [].

(** [d.get(k)] *)
Fixpoint get (d : dict) (k : string) : option V :=
  match d with
  | [] => None
  | (k', v) :: r => if String.eqb k k' then Some v else get r k
  end.

(** [k in d] *)
Definition contains (d : dict) (k : string) : bool :=
  match get d k with
  | Some _ => true
  | None => false
  end.

(** [d[k] = v]: an existing key keeps its position, a new key goes last. *)
Fixpoint setitem (d : dict) (k : string) (v : V) : dict :=
  match d with
  | [] => [(k, v)]
  | (k', v') :: r =>
      if String.eqb k k' then (k', v) :: r else (k', v') :: setitem r k v
  end.

(** [d.pop(k, None)] *)
Fixpoint delitem (d : dict) (k : string) : dict :=
  match d with
  | [] => []
  | (k', v') :: r =>
      if String.eqb k k' then r else (k', v') :: delitem r k
  end.

(** [d.keys()] and [d.items()], in iteration order. *)
Definition keys (d : dict) : list string := map fst d.
Definition items (d : dict) : list (string * V) := d.

Definition wf (d : dict) : Prop := NoDup (keys d).

End Dict.

Arguments dict : clear implicits.

End PyDict.

Import PyStr PosixPath PyDict.

(** ** Exceptions and the error monad *)

Inductive exn :=
| FileNotFoundError
| PermissionError
| OSError
| ValueError
| ClientError
| NoCredentialsError.

Definition result (A : Type) : Type := (exn + A)%type.

Definition ret {A} (a : A) : result A := inr a.
Definition raise {A} (e : exn) : result A := inl e.

Definition bind {A B} (m : result A) (k : A -> result B) : result B :=
  match m with
  | inl e => inl e
  | inr a => k a
  end.

Notation "x <- m ;; k" := (bind m (fun x => k))
  (at level 61, m at next level, right associativity).

(** A [for] loop whose body may raise: the first exception ends the loop. *)
Fixpoint for_each {A S} (body : S -> A -> result S) (l : list A) (s : S)
  : result S :=
  match l with
  | [] => ret s
  | a :: r => s' <- body s a ;; for_each body r s'
  end.

(** ** The collaborators: file system and object store client *)

(** What [open(path, "rb")] and the reads that follow do. *)
Inductive file :=
| Regular (content : list byte)
    (* opens; the reads deliver [content], then [b""] *)
| Faulty (content : list byte) (e : exn)
    (* opens; the reads deliver [content], then a read raises [e] *)
| Unopenable (e : exn).
    (* [open] raises [e] *)

(** One entry of [page['Contents']]. *)
Record s3obj := mkObj { Key : string; ETag : string }.

(** A page of [list_objects_v2]; [None] when it has no ['Contents']. *)
Definition page : Type := option (list s3obj).

Record env := mkEnv {
  (* [os.getcwd()] is [/] followed by [cwd_tail] *)
  cwd_tail : string;
  (* [os.walk(top)]: the [(root, filenames)] of every directory visited *)
  walk : string -> list (string * list string);
  (* the file behind a path *)
  file_at : string -> file;
  (* [paginator.paginate(Bucket=b, Prefix=p)], iterated to the end *)
  s3_pages : string -> string -> result (list page);
  (* [s3.upload_file(Filename, Bucket, Key)]: [Some e] when it raises [e] *)
  s3_upload : string -> string -> string -> option exn;
  (* [s3.delete_object(Bucket=b, Key=k)] *)
  s3_delete : string -> string -> option exn
}.

Definition getcwd (E : env) : string := String sep (cwd_tail E).

(** The constructor arguments of [S3SyncTool]. *)
Record S3SyncTool := mkTool {
  localFolder : string;
  bucketName : string;
  prefix : string;
  dryRun : bool;
  maxThreads : Z
}.

(** ** Output and calls on the client *)

(** One constructor for each [print] of the source. *)
Inductive msg :=
| MStart
| MMissing (localFile : string)
| MChanged (localFile : string)
| MCurrent (localFile : string)
| MOrphan (s3Object : string)
| MUploading (n : nat)
| MDryUpload (s3Key : string)
| MUploaded (s3Key : string)
| MDryDelete (s3Key : string)
| MDeleted (s3Key : string)
| MDone
| MNoCredentials.

(** The text of each message, as the source prints it. *)
Definition render (m : msg) : string :=
  match m with
  | MStart => "Starte Synchronisation..."
  | MMissing f => "Datei fehlt im S3: " ++ f
  | MChanged f => "Datei geändert: " ++ f
  | MCurrent f => "Datei aktuell: " ++ f
  | MOrphan f => "Datei verwaist im S3: " ++ f
  | MUploading n =>
      NilEmpty.string_of_uint (Nat.to_uint n)
      ++ " Dateien werden hochgeladen..."
  | MDryUpload k => "[DryRun] Würde hochladen: " ++ k
  | MUploaded k => "Hochgeladen: " ++ k
  | MDryDelete k => "[DryRun] Würde löschen: " ++ k
  | MDeleted k => "Gelöscht: " ++ k
  | MDone => "Synchronisation abgeschlossen."
  | MNoCredentials =>
      "Fehler: Keine AWS Credentials gefunden. Stelle sicher, dass IAM Rollen oder Umgebungsvariablen korrekt gesetzt sind."
  end%string.

Inductive event :=
| Print (m : msg)
| UploadCall (localPath bucket key : string)
| DeleteCall (bucket key : string).

Definition trace : Type := list event.

(** ** The methods of [S3SyncTool] *)

Definition chunk_size : nat := 4096.

(** The loop [for chunk in iter(lambda: f.read(4096), b""): hashMd5.update(chunk)].
    [rest] is what the file has left, [fault] what a read past the end does,
    [hashMd5] the bytes the hash object has absorbed.  The recursion is on
    [fuel], an upper bound of the number of reads. *)
Fixpoint read_loop (fuel : nat) (rest : list byte) (fault : option exn)
    (hashMd5 : list byte) : result (list byte) :=
  match firstn chunk_size rest, fuel with
  | [], _ | _, O =>
      match fault with
      | Some e => raise e
      | None => ret hashMd5
      end
  | chunk, S fuel' =>
      read_loop fuel' (skipn chunk_size rest) fault (hashMd5 ++ chunk)
  end.

Definition calculateMd5 (E : env) (filePath : string) : result string :=
  match file_at E filePath with
  | Unopenable e => raise e
  | Regular content =>
      h <- read_loop (List.length content) content None [] ;;
      ret (MD5.hexdigest h)
  | Faulty content e =>
      h <- read_loop (List.length content) content (Some e) [] ;;
      ret (MD5.hexdigest h)
  end.

Definition listLocalFiles (self : S3SyncTool) (E : env) : result (dict string) :=
  for_each
    (fun files '(root, filenames) =>
       for_each
         (fun files filename =>
            let fullPath := join2 root filename in
            match relpath (getcwd E) fullPath (localFolder self) with
            | None => raise ValueError
            | Some rel =>
                let relativePath := replace backslash slash rel in
                md5 <- calculateMd5 E fullPath ;;
                ret (setitem files relativePath md5)
            end)
         filenames files)
    (walk E (localFolder self)) empty.

(** The relative key that [listS3Objects] computes for a key of the bucket. *)
Definition relativeKey_of (self : S3SyncTool) (E : env) (key : string)
  : result string :=
  if truthy (prefix self) then
    match relpath (getcwd E) key (prefix self) with
    | None => raise ValueError
    | Some rel => ret (replace backslash slash rel)
    end
  else ret key.

(** [page.get('Contents', [])] *)
Definition contents (pg : page) : list s3obj :=
  match pg with
  | Some c => c
  | None => []
  end.

(** The body of the inner loop of [listS3Objects]. *)
Definition record_object (self : S3SyncTool) (E : env)
    (objects : dict string) (obj : s3obj) : result (dict string) :=
  let key := Key obj in
  relativeKey <- relativeKey_of self E key ;;
  let etag := strip dquote (ETag obj) in
  ret (setitem objects relativeKey etag).

Definition listS3Objects (self : S3SyncTool) (E : env) : result (dict string) :=
  pageIterator <- s3_pages E (bucketName self) (prefix self) ;;
  for_each
    (fun objects (pg : page) =>
       for_each (record_object self E) (contents pg) objects)
    pageIterator empty.

(** The key under which a relative path is stored. *)
Definition s3Key_of (self : S3SyncTool) (name : string) : string :=
  if truthy (prefix self)
  then replace backslash slash (join2 (prefix self) name)
  else name.

(** A call of a method: what it does, and the exception it raises if any. *)
Definition outcome : Type := (trace * option exn)%type.

Definition uploadFile (self : S3SyncTool) (E : env) (localFile : string)
  : outcome :=
  let s3Key := s3Key_of self localFile in
  let localPath := join2 (localFolder self) localFile in
  if dryRun self then ([Print (MDryUpload s3Key)], None)
  else
    match s3_upload E localPath (bucketName self) s3Key with
    | Some e => ([UploadCall localPath (bucketName self) s3Key], Some e)
    | None =>
        ([UploadCall localPath (bucketName self) s3Key;
          Print (MUploaded s3Key)], None)
    end.

Definition deleteS3Object (self : S3SyncTool) (E : env) (s3Object : string)
  : outcome :=
  let s3Key := s3Key_of self s3Object in
  if dryRun self then ([Print (MDryDelete s3Key)], None)
  else
    match s3_delete E (bucketName self) s3Key with
    | Some e => ([DeleteCall (bucketName self) s3Key], Some e)
    | None =>
        ([DeleteCall (bucketName self) s3Key; Print (MDeleted s3Key)], None)
    end.

(** The first loop of [sync]: one local entry is classified against the
    remote manifest.  [not s3Md5] holds for [None] and for the empty string. *)
Definition classify_local (s3Objects : dict string)
    (st : trace * list string) (item : string * string) : trace * list string :=
  let '(out, uploads) := st in
  let '(localFile, localMd5) := item in
  match get s3Objects localFile with
  | None => (out ++ [Print (MMissing localFile)], uploads ++ [localFile])
  | Some s3Md5 =>
      if negb (truthy s3Md5)
      then (out ++ [Print (MMissing localFile)], uploads ++ [localFile])
      else if negb (String.eqb localMd5 s3Md5)
      then (out ++ [Print (MChanged localFile)], uploads ++ [localFile])
      else (out ++ [Print (MCurrent localFile)], uploads)
  end.

(** The second loop of [sync]. *)
Definition classify_remote (localFiles : dict string)
    (st : trace * list string) (s3Object : string) : trace * list string :=
  let '(out, deletes) := st in
  if negb (contains localFiles s3Object)
  then (out ++ [Print (MOrphan s3Object)], deletes ++ [s3Object])
  else (out, deletes).

Definition plan_uploads (localFiles s3Objects : dict string)
  : trace * list string :=
  fold_left (classify_local s3Objects) (items localFiles) ([], []).

Definition plan_deletes (localFiles s3Objects : dict string)
  : trace * list string :=
  fold_left (classify_remote localFiles) (keys s3Objects) ([], []).

(** The two work lists of [sync]. *)
Definition reconcile (localFiles s3Objects : dict string)
  : list string * list string :=
  (snd (plan_uploads localFiles s3Objects),
   snd (plan_deletes localFiles s3Objects)).

(** *** The thread pool *)

Fixpoint update_nth {A} (i : nat) (x : A) (l : list A) : list A :=
  match l, i with
  | [], _ => []
  | _ :: r, O => x :: r
  | y :: r, S i' => y :: update_nth i' x r
  end.

(** The pool interleaves the events of the submitted tasks.  [sched] names,
    step by step, the task that makes the next move; a step that names a
    finished task is skipped.  Leaving the [with] block waits for every
    task ([shutdown(wait=True)]): what the schedule has not run by then runs
    to its end. *)
Fixpoint pool_run (sched : list nat) (tasks : list trace) : trace :=
  match sched with
  | [] => concat tasks
  | i :: sched' =>
      match nth_error tasks i with
      | Some (e :: rest) => e :: pool_run sched' (update_nth i rest tasks)
      | _ => pool_run sched' tasks
      end
  end.

(** [executor.map(self.uploadFile, uploads)] inside the [with] block.  Each
    call becomes a future; the iterator of results is dropped, so an exception
    a task raised stays in its future.  The constructor of the pool raises
    [ValueError] unless [max_workers] is positive. *)
Definition run_pool (self : S3SyncTool) (E : env) (sched : list nat)
    (uploads : list string) : outcome :=
  if (maxThreads self <=? 0)%Z then ([], Some ValueError)
  else
    let futures := map (uploadFile self E) uploads in
    (pool_run sched (map fst futures), None).

Definition upload_phase (self : S3SyncTool) (E : env) (sched : list nat)
    (uploads : list string) : outcome :=
  if is_nil uploads then ([], None)
  else
    let '(t, r) := run_pool self E sched uploads in
    (Print (MUploading (List.length uploads)) :: t, r).

(** [for s3Object in deletes: self.deleteS3Object(s3Object)] *)
Fixpoint delete_phase (self : S3SyncTool) (E : env) (deletes : list string)
  : outcome :=
  match deletes with
  | [] => ([], None)
  | s3Object :: r =>
      match deleteS3Object self E s3Object with
      | (t, Some e) => (t, Some e)
      | (t, None) =>
          let '(t', res) := delete_phase self E r in (t ++ t', res)
      end
  end.

(** Sequencing of two phases: the second runs if the first did not raise. *)
Definition then_ (a : outcome) (b : outcome) : outcome :=
  match a with
  | (t, Some e) => (t, Some e)
  | (t, None) => let '(t', r) := b in (t ++ t', r)
  end.

Definition sync (self : S3SyncTool) (E : env) (sched : list nat) : outcome :=
  then_ ([Print MStart], None)
    match listLocalFiles self E with
    | inl e => ([], Some e)
    | inr localFiles =>
        match listS3Objects self E with
        | inl e => ([], Some e)
        | inr s3Objects =>
            let '(t1, uploads) := plan_uploads localFiles s3Objects in
            let '(t2, deletes) := plan_deletes localFiles s3Objects in
            then_ (t1 ++ t2, None)
              (then_ (upload_phase self E sched uploads)
                 (then_ (delete_phase self E deletes)
                    ([Print MDone], None)))
        end
    end.

(** [main], once the arguments are parsed and the client is built: only
    [NoCredentialsError] is caught. *)
Definition main (self : S3SyncTool) (E : env) (sched : list nat) : outcome :=
  match sync self E sched with
  | (t, Some NoCredentialsError) => (t ++ [Print MNoCredentials], None)
  | r => r
  end.

(** *** The object store seen through the calls *)

(** The objects of one bucket: key to content. *)
Definition store : Type := dict (list byte).

(** The effect of one event on the bucket [b]. *)
Definition apply_event (E : env) (b : string) (s : store) (e : event) : store :=
  match e with
  | Print _ => s
  | UploadCall localPath bucket key =>
      if String.eqb bucket b then
        match s3_upload E localPath bucket key, file_at E localPath with
        | None, Regular content => setitem s key content
        | _, _ => s
        end
      else s
  | DeleteCall bucket key =>
      if String.eqb bucket b then
        match s3_delete E bucket key with
        | None => delitem s key
        | Some _ => s
        end
      else s
  end.

Definition store_after (E : env) (b : string) (s : store) (t : trace) : store :=
  fold_left (apply_event E b) t s.

Definition is_call (e : event) : bool :=
  match e with
  | Print _ => false
  | UploadCall _ _ _ | DeleteCall _ _ => true
  end.

(** ** Vocabulary of the statements *)

(** The test of the first loop: the entry goes to the upload list. *)
Definition needs_upload (s3Objects : dict string) (item : string * string)
  : bool :=
  match get s3Objects (fst item) with
  | None => true
  | Some s3Md5 => negb (truthy s3Md5) || negb (String.eqb (snd item) s3Md5)
  end.

(** The test of the second loop. *)
Definition orphaned (localFiles : dict string) (s3Object : string) : bool :=
  negb (contains localFiles s3Object).

(** Every identifier of a manifest is a non-empty string. *)
Definition nonempty_ids (d : dict string) : Prop :=
  forall p l, get d p = Some l -> l <> "".

(** The messages that [sync] prints itself, outside the work items. *)
Definition note (m : msg) : bool :=
  match m with
  | MStart | MMissing _ | MChanged _ | MCurrent _ | MOrphan _
  | MUploading _ | MDone => true
  | _ => false
  end.

(** What an upload task does: the call on the client and the reports of
    [uploadFile]. *)
Definition upload_activity (e : event) : bool :=
  match e with
  | UploadCall _ _ _ => true
  | Print (MUploaded _) | Print (MDryUpload _) => true
  | _ => false
  end.

(** What the delete loop does: the call on the client and the reports of
    [deleteS3Object]. *)
Definition delete_activity (e : event) : bool :=
  match e with
  | DeleteCall _ _ => true
  | Print (MDeleted _) | Print (MDryDelete _) => true
  | _ => false
  end.

(** The messages that report on the transfer of a key. *)
Definition reports_on (key : string) (e : event) : bool :=
  match e with
  | Print (MUploaded k) | Print (MDryUpload k)
  | Print (MDeleted k) | Print (MDryDelete k) => String.eqb k key
  | _ => false
  end.

(** The local path and the call that [uploadFile] makes for one item. *)
Definition localPath_of (self : S3SyncTool) (localFile : string) : string :=
  join2 (localFolder self) localFile.

Definition upload_call (self : S3SyncTool) (localFile : string) : event :=
  UploadCall (localPath_of self localFile) (bucketName self)
    (s3Key_of self localFile).

(** The answer of the client to the upload of one item. *)
Definition upload_result (self : S3SyncTool) (E : env) (localFile : string)
  : option exn :=
  s3_upload E (localPath_of self localFile) (bucketName self)
    (s3Key_of self localFile).

(** *** Normalized relative paths *)

Fixpoint has_char (c : ascii) (s : string) : bool :=
  match s with
  | EmptyString => false
  | String d r => Ascii.eqb d c || has_char c r
  end.

(** A component of a normalized relative path: a name, neither empty nor
    [.] nor [..], without a backslash. *)
Definition is_name (c : string) : bool :=
  negb (String.eqb c "") && negb (String.eqb c curdir)
  && negb (String.eqb c pardir) && negb (has_char backslash c).

(** A normalized relative path: names joined by forward slashes, so without
    a leading slash, an empty component, [.] or [..]. *)
Definition is_normalized (p : string) : bool :=
  forallb is_name (split sep p).

(** A component that [normpath] keeps: not empty, without a separator. *)
Definition kept (c : string) : Prop := c <> "" /\ has_char sep c = false.

(** The key of the bucket that stands for a relative path under a prefix:
    what [os.path.join(prefix, p)] gives, or [p] itself without a prefix. *)
Definition key_under (pre p : string) : string :=
  if truthy pre then join2 pre p else p.

(** The object of the bucket that stands for one entry [(p, tag)], and the
    entry of the remote manifest for it. *)
Definition object_of (self : S3SyncTool) (entry : string * string) : s3obj :=
  mkObj (key_under (prefix self) (fst entry)) (snd entry).

Definition unquoted (entry : string * string) : string * string :=
  (fst entry, strip dquote (snd entry)).

(** *** Notions taken from the specification

    The remote manifest that reflects a run: every path of the upload list
    now carries its local identifier, every path of the delete list is gone.
    This follows the words of the specification, not the source. *)
Definition reflect_upload (L r : dict string) (p : string) : dict string :=
  match get L p with
  | Some l => setitem r p l
  | None => r
  end.

Definition reflect_run (L R : dict string) (U D : list string) : dict string :=
  fold_left delitem D (fold_left (reflect_upload L) U R).

(** The relative key in the words of the specification: the key without the
    prefix, with forward slashes and without a leading slash. *)
Fixpoint drop (n : nat) (s : string) : string :=
  match n, s with
  | S n', String _ r => drop n' r
  | _, _ => s
  end.

Definition spec_relative_key (pre key : string) : string :=
  lstrip slash (replace backslash slash (drop (String.length pre) key)).

(** ** Worlds to run the tool in *)

(** The manifests of the example scenario. *)
Definition example_local : dict string := [("a.txt", "d1"); ("b.txt", "d2")].
Definition example_remote : dict string := [("a.txt", "d1"); ("c.txt", "d3")].

(** The folder [docs] holds [a.txt] and [b.txt]; the bucket holds, under the
    prefix [backup], an up-to-date copy of [a.txt] and a stray [c.txt]. *)

Definition quoted (s : string) : string :=
  String dquote (s ++ String dquote "")%string.

Definition example_tool (dry : bool) : S3SyncTool :=
  mkTool "docs" "bucket" "backup" dry 5.

Definition example_files (path : string) : file :=
  if String.eqb path "docs/a.txt" then Regular (bytes_of_string "alpha")
  else if String.eqb path "docs/b.txt" then Regular (bytes_of_string "beta")
  else Unopenable FileNotFoundError.

Definition example_listing : list page :=
  [ Some [ mkObj "backup/a.txt"
             (quoted (MD5.hexdigest (bytes_of_string "alpha"))) ];
    None;
    Some [ mkObj "backup/c.txt" (quoted "d3") ] ].

(** The same folder when [b.txt] cannot be opened. *)
Definition example_files_denied (path : string) : file :=
  if String.eqb path "docs/b.txt" then Unopenable PermissionError
  else example_files path.

(** [files] is the content of the folder, [listing] what the bucket lists;
    [upload_fails] names the local paths whose upload the client refuses. *)
Definition example_env (files : string -> file) (listing : list page)
    (upload_fails : list string) : env :=
  mkEnv "home/user"
    (fun top =>
       if String.eqb top "docs" then [("docs", ["a.txt"; "b.txt"])] else [])
    files
    (fun _ _ => ret listing)
    (fun localPath _ _ =>
       if existsb (String.eqb localPath) upload_fails
       then Some ClientError else None)
    (fun _ _ => None).

(** A tool whose prefix holds a backslash, and one whose prefix is [foo]
    while the bucket holds a key that only starts with [foo]. *)
Definition backslash_tool : S3SyncTool :=
  mkTool "docs" "bucket" ("a" ++ String backslash "b")%string false 5.

Definition foo_tool : S3SyncTool := mkTool "docs" "bucket" "foo" false 5.

Definition foo_listing : list page :=
  [ Some [ mkObj "foobar/x.txt" (quoted "e") ] ].

(** ** Vocabulary of the further properties *)

(** The message that the first loop of [sync] prints for one local entry. *)
Definition verdict (s3Objects : dict string) (item : string * string) : msg :=
  match get s3Objects (fst item) with
  | None => MMissing (fst item)
  | Some s3Md5 =>
      if negb (truthy s3Md5) then MMissing (fst item)
      else if negb (String.eqb (snd item) s3Md5) then MChanged (fst item)
      else MCurrent (fst item)
  end.

(** The paths that a trace gives a verdict on, and those it flags for upload. *)
Definition verdict_paths (t : trace) : list string :=
  flat_map (fun e => match e with
                     | Print (MMissing f) | Print (MChanged f)
                     | Print (MCurrent f) => [f]
                     | _ => []
                     end) t.

Definition flagged_paths (t : trace) : list string :=
  flat_map (fun e => match e with
                     | Print (MMissing f) | Print (MChanged f) => [f]
                     | _ => []
                     end) t.

(** The keys that a trace uploads or would upload, deletes or would delete. *)
Definition attempted_uploads (t : trace) : list string :=
  flat_map (fun e => match e with
                     | UploadCall _ _ k | Print (MDryUpload k) => [k]
                     | _ => []
                     end) t.

Definition attempted_deletes (t : trace) : list string :=
  flat_map (fun e => match e with
                     | DeleteCall _ k | Print (MDryDelete k) => [k]
                     | _ => []
                     end) t.

(** The same tool with another dry-run flag. *)
Definition with_dryRun (b : bool) (self : S3SyncTool) : S3SyncTool :=
  mkTool (localFolder self) (bucketName self) (prefix self) b (maxThreads self).

(** What the delete loop does for one item when the client accepts. *)
Definition delete_events (self : S3SyncTool) (s3Object : string) : trace :=
  [DeleteCall (bucketName self) (s3Key_of self s3Object);
   Print (MDeleted (s3Key_of self s3Object))].

(** The directory that [os.walk] visits for the relative directory [d] of
    the folder [top]; the empty [d] stands for [top] itself. *)
Definition root_of (top d : string) : string :=
  if truthy d then join2 top d else top.

(** The same tool with another thread count. *)
Definition with_maxThreads (n : Z) (self : S3SyncTool) : S3SyncTool :=
  mkTool (localFolder self) (bucketName self) (prefix self) (dryRun self) n.

(** An event of a work item: a call, a report or a preview of a transfer. *)
Definition is_work (e : event) : bool :=
  upload_activity e || delete_activity e.

(** The world [E] with a client that refuses to delete the keys of [fails]. *)
Definition failing_deletes (fails : list string) (E : env) : env :=
  mkEnv (cwd_tail E) (walk E) (file_at E) (s3_pages E) (s3_upload E)
    (fun _ key =>
       if existsb (String.eqb key) fails then Some ClientError else None).

(** The body of the inner loop of [listLocalFiles] in the directory [root]. *)
Definition record_file (self : S3SyncTool) (E : env) (root : string)
    (files : dict string) (filename : string) : result (dict string) :=
  let fullPath := join2 root filename in
  match relpath (getcwd E) fullPath (localFolder self) with
  | None => raise ValueError
  | Some rel =>
      let relativePath := replace backslash slash rel in
      md5 <- calculateMd5 E fullPath ;;
      ret (setitem files relativePath md5)
  end.

(** What [os.walk(top)] yields for a tree given by its directories, each
    relative to [top] with its file names, and the relative paths of the
    files of that tree, in the order of the walk. *)
Definition tree_walk (top : string) (dirs : list (string * list string))
  : list (string * list string) :=
  map (fun dir => (root_of top (fst dir), snd dir)) dirs.

Definition tree_paths (dirs : list (string * list string)) : list string :=
  flat_map (fun dir => map (key_under (fst dir)) (snd dir)) dirs.

(** A directory of a tree: normalized unless it is the top, with normalized
    file names. *)
Definition clean_dir (dir : string * list string) : bool :=
  (negb (truthy (fst dir)) || is_normalized (fst dir))
  && forallb is_normalized (snd dir).

(** The example world with the listing cut into other pages. *)
Definition example_listing_one_page : list page :=
  [ Some [ mkObj "backup/a.txt"
             (quoted (MD5.hexdigest (bytes_of_string "alpha")));
           mkObj "backup/c.txt" (quoted "d3") ] ].




(** The body of the inner loop of [listLocalFiles] as a function of the full
    path of the file, and the full paths that the walk yields, in its order. *)
Definition record_path (self : S3SyncTool) (E : env)
    (files : dict string) (fullPath : string) : result (dict string) :=
  match relpath (getcwd E) fullPath (localFolder self) with
  | None => raise ValueError
  | Some rel =>
      let relativePath := replace backslash slash rel in
      md5 <- calculateMd5 E fullPath ;;
      ret (setitem files relativePath md5)
  end.

Definition walked_files (E : env) (top : string) : list string :=
  concat (map (fun dir => map (join2 (fst dir)) (snd dir)) (walk E top)).

(** A file that the build gets past: its path is not empty and its
    fingerprint is computed. *)
Definition fingerprinted (E : env) (fullPath : string) : Prop :=
  truthy fullPath = true /\ exists id, calculateMd5 E fullPath = ret id.

(** The folder of the example when [a.txt] has vanished and [b.txt] cannot
    be opened. *)
Definition example_files_two_faults (path : string) : file :=
  if String.eqb path "docs/a.txt" then Unopenable FileNotFoundError
  else if String.eqb path "docs/b.txt" then Unopenable PermissionError
  else example_files path.


(** * Properties *)

(** ** Test vectors of RFC 1321 *)

Example md5_empty : MD5.hexdigest [] = "d41d8cd98f00b204e9800998ecf8427e".
Proof. vm_compute. reflexivity. Qed.

Example md5_abc :
  MD5.hexdigest (bytes_of_string "abc") = "900150983cd24fb0d6963f7d28e17f72".
Proof. vm_compute. reflexivity. Qed.

Example md5_two_blocks :
  MD5.hexdigest (repeat "x"%byte 70) = "7d56c0f83fd1e320d60ea2f13dfdeedd".
Proof. vm_compute. reflexivity. Qed.


(** ** Facts about [dict] *)

Section DictFacts.

Context {V : Type}.
Implicit Types (d : dict V) (k : string) (v : V).

Lemma get_In d k v : get d k = Some v -> In (k, v) d.
Proof.
  induction d as [|[k' v'] r IH]; simpl; [discriminate|].
  destruct (String.eqb_spec k k') as [->|Hne]; intros H.
  - injection H as ->. now left.
  - right. now apply IH.
Qed.

Lemma In_get d k v : wf d -> In (k, v) d -> get d k = Some v.
Proof.
  unfold wf, keys.
  induction d as [|[k' v'] r IH]; simpl; [easy|].
  intros Hnd [Heq|Hin].
  - injection Heq as -> ->. now rewrite String.eqb_refl.
  - inversion Hnd as [|? ? Hnotin Hnd']; subst.
    destruct (String.eqb_spec k k') as [->|Hne].
    + exfalso. apply Hnotin. now apply (in_map fst) in Hin.
    + now apply IH.
Qed.

Lemma get_None_keys d k : get d k = None <-> ~ In k (keys d).
Proof.
  unfold keys.
  induction d as [|[k' v'] r IH]; simpl; [tauto|].
  destruct (String.eqb_spec k k') as [->|Hne].
  - split; [discriminate|]. intros H. exfalso. apply H. now left.
  - rewrite IH. split; intros H; [intros [E|I]; [now subst|tauto]|tauto].
Qed.

Lemma contains_keys d k : contains d k = true <-> In k (keys d).
Proof.
  unfold contains.
  destruct (get d k) as [v|] eqn:G.
  - split; [intros _|easy].
    apply get_In in G. now apply (in_map fst) in G.
  - split; [discriminate|]. intros H. now apply get_None_keys in G.
Qed.

Lemma contains_false d k : contains d k = false <-> get d k = None.
Proof. unfold contains. destruct (get d k); split; congruence. Qed.

Lemma get_setitem d k v k' :
  get (setitem d k v) k' = if String.eqb k' k then Some v else get d k'.
Proof.
  induction d as [|[k0 v0] r IH]; simpl.
  - reflexivity.
  - destruct (String.eqb_spec k k0) as [->|Hne]; simpl.
    + now destruct (String.eqb k' k0).
    + rewrite IH.
      destruct (String.eqb_spec k' k0) as [->|Hne'];
        [|reflexivity].
      destruct (String.eqb_spec k0 k); congruence.
Qed.

Lemma keys_setitem d k v k' :
  In k' (keys (setitem d k v)) <-> k' = k \/ In k' (keys d).
Proof.
  unfold keys.
  induction d as [|[k0 v0] r IH]; simpl.
  - intuition.
  - destruct (String.eqb_spec k k0) as [->|Hne]; simpl.
    + intuition.
    + rewrite IH. intuition.
Qed.

Lemma wf_setitem d k v : wf d -> wf (setitem d k v).
Proof.
  unfold wf.
  induction d as [|[k0 v0] r IH]; simpl; intros Hnd.
  - constructor; [easy|constructor].
  - inversion Hnd as [|? ? Hnotin Hnd']; subst.
    destruct (String.eqb_spec k k0) as [->|Hne]; simpl.
    + now constructor.
    + constructor; [|now apply IH].
      intros Hin. apply keys_setitem in Hin as [->|Hin]; tauto.
Qed.

Lemma keys_delitem_incl d k k' :
  In k' (keys (delitem d k)) -> In k' (keys d).
Proof.
  unfold keys.
  induction d as [|[k0 v0] r IH]; simpl; [easy|].
  destruct (String.eqb k k0); simpl; intuition.
Qed.

Lemma wf_delitem d k : wf d -> wf (delitem d k).
Proof.
  unfold wf.
  induction d as [|[k0 v0] r IH]; simpl; intros Hnd; [constructor|].
  inversion Hnd as [|? ? Hnotin Hnd']; subst.
  destruct (String.eqb k k0); simpl; [assumption|].
  constructor; [|now apply IH].
  intros Hin. now apply keys_delitem_incl in Hin.
Qed.

Lemma get_delitem d k k' :
  wf d ->
  get (delitem d k) k' = if String.eqb k' k then None else get d k'.
Proof.
  unfold wf.
  induction d as [|[k0 v0] r IH]; simpl; intros Hnd.
  - now destruct (String.eqb k' k).
  - inversion Hnd as [|? ? Hnotin Hnd']; subst.
    destruct (String.eqb_spec k k0) as [->|Hne]; simpl.
    + destruct (String.eqb_spec k' k0) as [E|Hne']; [|reflexivity].
      rewrite E. now apply get_None_keys.
    + rewrite IH by assumption.
      destruct (String.eqb_spec k' k0) as [E|Hne']; [|reflexivity].
      destruct (String.eqb_spec k' k); congruence.
Qed.

Lemma get_Permutation d1 d2 k :
  wf d1 -> Permutation d1 d2 -> get d1 k = get d2 k.
Proof.
  intros Hwf HP.
  assert (Hwf2 : wf d2).
  { unfold wf, keys in *.
    eapply Permutation_NoDup; [|exact Hwf]. now apply Permutation_map. }
  destruct (get d1 k) as [v|] eqn:G1.
  - symmetry. apply In_get; [assumption|].
    eapply Permutation_in; [exact HP|]. now apply get_In.
  - destruct (get d2 k) as [v|] eqn:G2; [|reflexivity].
    apply get_In in G2.
    apply (Permutation_in _ (Permutation_sym HP)) in G2.
    apply In_get in G2; [congruence|assumption].
Qed.

End DictFacts.

Lemma Permutation_filter_compat {A} (f : A -> bool) (l1 l2 : list A) :
  Permutation l1 l2 -> Permutation (filter f l1) (filter f l2).
Proof.
  induction 1 as [|x l l' _ IH|x y l|l l' l'' _ IH1 _ IH2]; simpl.
  - constructor.
  - destruct (f x); [now constructor|assumption].
  - destruct (f x), (f y); try reflexivity. apply perm_swap.
  - now transitivity (filter f l').
Qed.

(** ** The reconciler *)

Lemma plan_uploads_acc R l out ups :
  snd (fold_left (classify_local R) l (out, ups))
  = ups ++ map fst (filter (needs_upload R) l).
Proof.
  revert out ups.
  induction l as [|[p m] r IH]; intros out ups; simpl.
  - now rewrite app_nil_r.
  - unfold needs_upload at 1. simpl.
    destruct (get R p) as [s|]; simpl.
    + destruct (truthy s); simpl.
      * destruct (String.eqb m s); simpl; rewrite IH; [reflexivity|].
        now rewrite <- app_assoc.
      * rewrite IH. now rewrite <- app_assoc.
    + rewrite IH. now rewrite <- app_assoc.
Qed.

Lemma plan_deletes_acc L l out dels :
  snd (fold_left (classify_remote L) l (out, dels))
  = dels ++ filter (orphaned L) l.
Proof.
  revert out dels.
  induction l as [|k r IH]; intros out dels; simpl.
  - now rewrite app_nil_r.
  - unfold orphaned at 1.
    destruct (contains L k); simpl; rewrite IH; [reflexivity|].
    now rewrite <- app_assoc.
Qed.

Lemma reconcile_filter L R :
  reconcile L R
  = (map fst (filter (needs_upload R) L), filter (orphaned L) (keys R)).
Proof.
  unfold reconcile, plan_uploads, plan_deletes, items.
  now rewrite plan_uploads_acc, plan_deletes_acc.
Qed.

Lemma truthy_false s : truthy s = false <-> s = "".
Proof. destruct s; simpl; split; congruence. Qed.

Lemma in_uploads L R p :
  wf L ->
  In p (fst (reconcile L R)) <->
  exists l, get L p = Some l /\ needs_upload R (p, l) = true.
Proof.
  intros Hwf. rewrite reconcile_filter. simpl.
  rewrite in_map_iff. split.
  - intros [[p' l] [Hp Hin]]. simpl in Hp. subst p'.
    apply filter_In in Hin as [Hin Hn].
    exists l. split; [now apply In_get|assumption].
  - intros [l [Hg Hn]]. exists (p, l). split; [reflexivity|].
    apply filter_In. split; [now apply get_In|assumption].
Qed.

Lemma in_deletes L R p :
  In p (snd (reconcile L R)) <->
  contains R p = true /\ contains L p = false.
Proof.
  rewrite reconcile_filter. simpl.
  rewrite filter_In, contains_keys. unfold orphaned.
  now rewrite negb_true_iff.
Qed.

Lemma NoDup_filter {A} (f : A -> bool) (l : list A) :
  NoDup l -> NoDup (filter f l).
Proof.
  induction 1 as [|x l Hx _ IH]; simpl; [constructor|].
  destruct (f x); [|assumption].
  constructor; [|assumption].
  intros Hin. apply filter_In in Hin. tauto.
Qed.

Lemma map_fst_filter_incl {A B} (f : A * B -> bool) (l : list (A * B)) x :
  In x (map fst (filter f l)) -> In x (map fst l).
Proof.
  rewrite !in_map_iff. intros [y [E Hin]].
  exists y. apply filter_In in Hin. tauto.
Qed.

Lemma NoDup_map_fst_filter {A B} (f : A * B -> bool) (l : list (A * B)) :
  NoDup (map fst l) -> NoDup (map fst (filter f l)).
Proof.
  induction l as [|x l IH]; simpl; intros Hnd; [constructor|].
  inversion Hnd as [|? ? Hx Hnd']; subst.
  destruct (f x); simpl; [|now apply IH].
  constructor; [|now apply IH].
  intros Hin. apply Hx. now apply map_fst_filter_incl in Hin.
Qed.

Lemma wf_example_local : wf example_local.
Proof.
  unfold wf. simpl. repeat constructor; simpl; intuition discriminate.
Qed.

Lemma wf_example_remote : wf example_remote.
Proof.
  unfold wf. simpl. repeat constructor; simpl; intuition discriminate.
Qed.

Lemma needs_upload_spec R p l :
  needs_upload R (p, l) = true <->
  get R p = None \/ get R p = Some "" \/ exists r, get R p = Some r /\ r <> l.
Proof.
  unfold needs_upload. simpl.
  destruct (get R p) as [s|]; [|intuition].
  destruct s as [|c s]; simpl; [intuition|].
  destruct (String.eqb_spec l (String c s)) as [->|Hne]; simpl.
  - split; [discriminate|].
    intros [H|[H|[r [H Hr]]]]; try discriminate.
    injection H as <-. congruence.
  - split; [intros _|reflexivity].
    right. right. exists (String c s). split; congruence.
Qed.

(** The two work lists for any manifests with unique keys.  The test
    [not s3Md5] makes an empty remote identifier count as a missing one. *)
Lemma reconcile_characterized :
  (forall L R : dict string, wf L -> wf R -> forall p,
      let U := fst (reconcile L R) in
      let D := snd (reconcile L R) in
      (In p U <->
       exists l, get L p = Some l /\
                 (get R p = None \/ get R p = Some "" \/
                  exists r, get R p = Some r /\ r <> l))
      /\ (In p D <-> contains R p = true /\ contains L p = false)
      /\ ~ (In p U /\ In p D)
      /\ NoDup U /\ NoDup D
      /\ (forall l, get L p = Some l -> get R p = Some l -> l <> "" ->
          ~ In p U /\ ~ In p D))
  /\ reconcile example_local example_remote = (["b.txt"], ["c.txt"]).
Proof.
  split; [|reflexivity].
  intros L R HL HR p U D.
  assert (HU : In p U <->
               exists l, get L p = Some l /\
                 (get R p = None \/ get R p = Some "" \/
                  exists r, get R p = Some r /\ r <> l)).
  { unfold U. rewrite in_uploads by assumption.
    split; intros [l [Hg Hn]]; exists l; (split; [assumption|]);
      now apply needs_upload_spec. }
  assert (HD : In p D <-> contains R p = true /\ contains L p = false)
    by apply in_deletes.
  assert (Hdisj : ~ (In p U /\ In p D)).
  { intros [H1 H2]. apply HU in H1 as [l [Hg _]].
    apply HD in H2 as [_ Hc]. apply contains_false in Hc. congruence. }
  repeat split; try (apply HU || apply HD); try assumption.
  - unfold U. rewrite reconcile_filter. simpl.
    now apply NoDup_map_fst_filter.
  - unfold D. rewrite reconcile_filter. simpl.
    now apply NoDup_filter.
  - intros Hin. apply HU in Hin as [l' [Hg Hn]].
    assert (l' = l) by congruence. subst l'.
    destruct Hn as [Hn|[Hn|[r [Hn Hr]]]]; congruence.
  - intros Hin. apply HD in Hin as [_ Hc].
    apply contains_false in Hc. congruence.
Qed.

(** Outside the manifests that [listLocalFiles] returns: were both
    identifiers of a path the empty string, the path would be uploaded. *)
Lemma reconcile_same_empty_id_uploaded :
  let L : dict string := [("a.txt", "")] in
  let R : dict string := [("a.txt", "")] in
  wf L /\ wf R /\
  get L "a.txt" = Some "" /\ get R "a.txt" = Some "" /\
  reconcile L R = (["a.txt"], []).
Proof.
  simpl. repeat split; unfold wf; simpl; repeat constructor; simpl; tauto.
Qed.

(** ** Idempotence *)

Lemma filter_nil {A} (f : A -> bool) (l : list A) :
  (forall x, In x l -> f x = false) -> filter f l = [].
Proof.
  induction l as [|x l IH]; simpl; intros H; [reflexivity|].
  rewrite (H x) by now left. apply IH. intros y Hy. apply H. now right.
Qed.

Lemma wf_fold_reflect L U R :
  wf R -> wf (fold_left (reflect_upload L) U R).
Proof.
  revert R. induction U as [|p U IH]; intros R HR; simpl; [assumption|].
  apply IH. unfold reflect_upload.
  destruct (get L p); [now apply wf_setitem|assumption].
Qed.

Lemma get_fold_reflect_notin L U R k :
  ~ In k U -> get (fold_left (reflect_upload L) U R) k = get R k.
Proof.
  revert R. induction U as [|p U IH]; intros R Hk; simpl; [reflexivity|].
  rewrite IH by (intros H; apply Hk; now right).
  unfold reflect_upload. destruct (get L p) as [l|]; [|reflexivity].
  rewrite get_setitem.
  destruct (String.eqb_spec k p) as [E|_]; [|reflexivity].
  exfalso. apply Hk. now left.
Qed.

Lemma get_fold_reflect_in L U R k l :
  In k U -> get L k = Some l ->
  get (fold_left (reflect_upload L) U R) k = Some l.
Proof.
  revert R. induction U as [|p U IH]; intros R Hk Hg; simpl; [easy|].
  destruct (in_dec string_dec k U) as [Hin|Hnotin].
  - now apply IH.
  - destruct Hk as [E|Hk]; [subst p|contradiction].
    rewrite get_fold_reflect_notin by assumption.
    unfold reflect_upload. rewrite Hg, get_setitem. now rewrite String.eqb_refl.
Qed.

Lemma wf_fold_delitem D (R : dict string) :
  wf R -> wf (fold_left delitem D R).
Proof.
  revert R. induction D as [|p D IH]; intros R HR; simpl; [assumption|].
  apply IH. now apply wf_delitem.
Qed.

Lemma get_fold_delitem_notin D (R : dict string) k :
  wf R -> ~ In k D -> get (fold_left delitem D R) k = get R k.
Proof.
  revert R. induction D as [|p D IH]; intros R HR Hk; simpl; [reflexivity|].
  rewrite IH; [|now apply wf_delitem|intros H; apply Hk; now right].
  rewrite get_delitem by assumption.
  destruct (String.eqb_spec k p) as [E|_]; [|reflexivity].
  exfalso. apply Hk. now left.
Qed.

Lemma get_fold_delitem_in D (R : dict string) k :
  wf R -> In k D -> get (fold_left delitem D R) k = None.
Proof.
  revert R. induction D as [|p D IH]; intros R HR Hk; simpl; [easy|].
  destruct (in_dec string_dec k D) as [Hin|Hnotin].
  - apply IH; [now apply wf_delitem|assumption].
  - destruct Hk as [E|Hk]; [subst p|contradiction].
    rewrite get_fold_delitem_notin; [|now apply wf_delitem|assumption].
    rewrite get_delitem by assumption. now rewrite String.eqb_refl.
Qed.

(** Against the remote manifest that reflects the first run, nothing is
    left to upload or delete, provided that no local identifier is empty. *)
Lemma reconcile_reflect_nil (L R : dict string) :
  wf L -> wf R -> nonempty_ids L ->
  reconcile L (reflect_run L R (fst (reconcile L R)) (snd (reconcile L R)))
  = ([], []).
Proof.
  intros HL HR Hne.
  set (U := fst (reconcile L R)). set (D := snd (reconcile L R)).
  set (R1 := fold_left (reflect_upload L) U R).
  assert (HR1 : wf R1) by now apply wf_fold_reflect.
  assert (Hget : forall k,
             get (reflect_run L R U D) k
             = if in_dec string_dec k D then None
               else if in_dec string_dec k U then get L k else get R k).
  { intros k. unfold reflect_run. fold R1.
    destruct (in_dec string_dec k D) as [HkD|HkD].
    - now apply get_fold_delitem_in.
    - rewrite get_fold_delitem_notin by assumption.
      destruct (in_dec string_dec k U) as [HkU|HkU].
      + pose proof HkU as HkU'.
        apply in_uploads in HkU' as [l [Hg _]]; [|assumption].
        rewrite Hg. now apply get_fold_reflect_in.
      + now apply get_fold_reflect_notin. }
  rewrite reconcile_filter. f_equal.
  - rewrite filter_nil; [reflexivity|].
    intros [p l] Hin. pose proof (In_get _ _ _ HL Hin) as Hg.
    unfold needs_upload. simpl. rewrite Hget.
    destruct (in_dec string_dec p D) as [HpD|HpD].
    { apply in_deletes in HpD as [_ Hc].
      apply contains_false in Hc. congruence. }
    destruct (in_dec string_dec p U) as [HpU|HpU].
    + rewrite Hg. rewrite String.eqb_refl. simpl.
      destruct l; [exfalso; now apply (Hne p "")|reflexivity].
    + destruct (needs_upload R (p, l)) eqn:En.
      * exfalso. apply HpU. apply in_uploads; [assumption|].
        now exists l.
      * exact En.
  - rewrite filter_nil; [reflexivity|].
    intros k Hk. unfold orphaned.
    apply contains_keys in Hk. unfold contains in Hk. rewrite Hget in Hk.
    destruct (in_dec string_dec k D) as [HkD|HkD]; [discriminate|].
    destruct (in_dec string_dec k U) as [HkU|HkU].
    + unfold contains. destruct (get L k); [reflexivity|discriminate].
    + destruct (contains L k) eqn:Ec; [reflexivity|].
      exfalso. apply HkD. apply in_deletes. split; [|assumption].
      unfold contains. destruct (get R k); [reflexivity|discriminate].
Qed.

Lemma nonempty_ids_example_local : nonempty_ids example_local.
Proof.
  intros p l. unfold example_local. simpl.
  destruct (p =? "a.txt")%string; [intros [= <-]; discriminate|].
  destruct (p =? "b.txt")%string; [intros [= <-]; discriminate|].
  discriminate.
Qed.

(** Outside the manifests that [listLocalFiles] returns: with an empty local
    identifier a second reconciliation would upload the path again. *)
Lemma reconcile_not_idempotent_empty_id :
  let L : dict string := [("a.txt", "")] in
  let R : dict string := [] in
  wf L /\ wf R /\
  reconcile L R = (["a.txt"], []) /\
  reflect_run L R ["a.txt"] [] = [("a.txt", "")] /\
  reconcile L (reflect_run L R ["a.txt"] []) = (["a.txt"], []).
Proof.
  simpl. repeat split; unfold wf; simpl; repeat constructor; simpl; tauto.
Qed.

(** ** Order of the work lists *)

(** C8 (amended).  The upload list enumerates the local manifest in its
    iteration order and the delete list the remote manifest in its own; two
    pairs of manifests that hold the same entries in another order yield
    work lists with the same paths, as permutations of each other. *)
Theorem reconcile_order :
  (forall L R : dict string,
      reconcile L R
      = (map fst (filter (needs_upload R) (items L)),
         filter (orphaned L) (keys R)))
  /\ (forall L1 L2 R1 R2 : dict string,
      wf L1 -> wf R1 -> Permutation L1 L2 -> Permutation R1 R2 ->
      Permutation (fst (reconcile L1 R1)) (fst (reconcile L2 R2)) /\
      Permutation (snd (reconcile L1 R1)) (snd (reconcile L2 R2))).
Proof.
  split; [exact reconcile_filter|].
  intros L1 L2 R1 R2 HL HR PL PR.
  rewrite !reconcile_filter. simpl. split.
  - apply Permutation_map.
    rewrite (filter_ext (needs_upload R1) (needs_upload R2)).
    + now apply Permutation_filter_compat.
    + intros [p l]. unfold needs_upload. simpl.
      now rewrite (get_Permutation R1 R2 p HR PR).
  - rewrite (filter_ext (orphaned L1) (orphaned L2)).
    + apply Permutation_filter_compat. unfold keys. now apply Permutation_map.
    + intros k. unfold orphaned, contains.
      now rewrite (get_Permutation L1 L2 k HL PL).
Qed.

Lemma reconcile_order_witness :
  Permutation (fst (reconcile example_local example_remote))
              (fst (reconcile (rev example_local) (rev example_remote))) /\
  Permutation (snd (reconcile example_local example_remote))
              (snd (reconcile (rev example_local) (rev example_remote))).
Proof.
  apply (proj2 reconcile_order example_local (rev example_local)
           example_remote (rev example_remote)
           wf_example_local wf_example_remote).
  - apply Permutation_rev.
  - apply Permutation_rev.
Defined.

(** C8 as stated fails: two local manifests with the same entries, inserted
    in another order, give upload lists in another order. *)
Lemma reconcile_order_depends_on_insertion :
  let L1 : dict string := [("a.txt", "d1"); ("b.txt", "d2")] in
  let L2 : dict string := [("b.txt", "d2"); ("a.txt", "d1")] in
  let R : dict string := [] in
  wf L1 /\ wf L2 /\ (forall k, get L1 k = get L2 k) /\
  reconcile L1 R = (["a.txt"; "b.txt"], []) /\
  reconcile L2 R = (["b.txt"; "a.txt"], []) /\
  reconcile L1 R <> reconcile L2 R.
Proof.
  simpl. repeat split;
    try (unfold wf; simpl; repeat constructor; simpl; intuition discriminate);
    try discriminate.
  intros k. simpl.
  destruct (String.eqb_spec k "a.txt") as [->|]; [reflexivity|].
  destruct (String.eqb_spec k "b.txt"); reflexivity.
Qed.

(** ** The thread pool and the phases of [sync] *)

Lemma update_nth_app {A} (l1 l2 : list A) (a x : A) :
  update_nth (List.length l1) x (l1 ++ a :: l2) = l1 ++ x :: l2.
Proof.
  induction l1 as [|b l1 IH]; simpl; [reflexivity|]. now rewrite IH.
Qed.

(** The pool runs every event of every task exactly once, whatever the
    schedule. *)
Lemma pool_run_perm sched : forall tasks,
  Permutation (pool_run sched tasks) (concat tasks).
Proof.
  induction sched as [|i sched IH]; intros tasks; simpl; [reflexivity|].
  destruct (nth_error tasks i) as [[|e rest]|] eqn:Hn; try apply IH.
  apply nth_error_split in Hn as [l1 [l2 [-> Hlen]]]. subst i.
  rewrite update_nth_app.
  etransitivity; [apply perm_skip, IH|].
  rewrite !concat_app. simpl.
  apply (Permutation_middle (concat l1) (rest ++ concat l2) e).
Qed.

Lemma then_fst a b :
  fst (then_ a b) = fst a ++ match snd a with
                             | Some _ => []
                             | None => fst b
                             end.
Proof.
  destruct a as [t [e|]], b as [t' r]; simpl; [now rewrite app_nil_r|easy].
Qed.

Lemma then_snd a b :
  snd (then_ a b) = match snd a with
                    | Some e => Some e
                    | None => snd b
                    end.
Proof. destruct a as [t [e|]], b as [t' r]; reflexivity. Qed.

Lemma Forall_then (P : event -> Prop) a b :
  Forall P (fst a) -> Forall P (fst b) -> Forall P (fst (then_ a b)).
Proof.
  intros Ha Hb. rewrite then_fst. apply Forall_app. split; [assumption|].
  destruct a as [t [e|]]; simpl; [constructor|assumption].
Qed.

Lemma Forall_plan_uploads (P : event -> Prop) L R :
  (forall m, note m = true -> P (Print m)) ->
  Forall P (fst (plan_uploads L R)).
Proof.
  intros HP. unfold plan_uploads, items.
  assert (H : forall l out ups, Forall P out ->
            Forall P (fst (fold_left (classify_local R) l (out, ups)))).
  { induction l as [|[p m] r IH]; intros out ups Hout; simpl; [assumption|].
    destruct (get R p) as [s|]; [destruct (negb (truthy s));
      [|destruct (negb (String.eqb m s))]|];
      apply IH; apply Forall_app; split; try assumption;
      repeat constructor; now apply HP. }
  apply H. constructor.
Qed.

Lemma Forall_plan_deletes (P : event -> Prop) L R :
  (forall m, note m = true -> P (Print m)) ->
  Forall P (fst (plan_deletes L R)).
Proof.
  intros HP. unfold plan_deletes.
  assert (H : forall l out dels, Forall P out ->
            Forall P (fst (fold_left (classify_remote L) l (out, dels)))).
  { induction l as [|k r IH]; intros out dels Hout; simpl; [assumption|].
    destruct (negb (contains L k)); apply IH; [|assumption].
    apply Forall_app; split; try assumption.
    repeat constructor; now apply HP. }
  apply H. constructor.
Qed.

Lemma Forall_upload_phase (P : event -> Prop) self E sched uploads :
  (forall m, note m = true -> P (Print m)) ->
  (forall f, In f uploads -> Forall P (fst (uploadFile self E f))) ->
  Forall P (fst (upload_phase self E sched uploads)).
Proof.
  intros HP Hup. unfold upload_phase, run_pool.
  destruct (is_nil uploads); [constructor|].
  destruct (maxThreads self <=? 0)%Z; simpl.
  - repeat constructor. now apply HP.
  - constructor; [now apply HP|].
    eapply Permutation_Forall;
      [apply Permutation_sym, pool_run_perm|].
    apply Forall_concat. rewrite map_map.
    apply Forall_map. apply Forall_forall. exact Hup.
Qed.

Lemma Forall_delete_phase (P : event -> Prop) self E deletes :
  (forall f, In f deletes -> Forall P (fst (deleteS3Object self E f))) ->
  Forall P (fst (delete_phase self E deletes)).
Proof.
  induction deletes as [|d r IH]; intros Hd; simpl; [constructor|].
  pose proof (Hd d (or_introl eq_refl)) as H0.
  destruct (deleteS3Object self E d) as [t [e|]]; simpl in *; [assumption|].
  destruct (delete_phase self E r) as [t' res] eqn:Ed. simpl in *.
  apply Forall_app. split; [assumption|].
  apply IH. intros f Hf. apply Hd. now right.
Qed.

(** A property of the notes of [sync] and of every event of the two kinds of
    work item holds throughout a run. *)
Lemma Forall_sync (P : event -> Prop) self E sched :
  (forall m, note m = true -> P (Print m)) ->
  (forall f, Forall P (fst (uploadFile self E f))) ->
  (forall f, Forall P (fst (deleteS3Object self E f))) ->
  Forall P (fst (sync self E sched)).
Proof.
  intros HP Hup Hdel. unfold sync.
  apply Forall_then; [repeat constructor; now apply HP|].
  destruct (listLocalFiles self E) as [e|L]; [constructor|].
  destruct (listS3Objects self E) as [e|R]; [constructor|].
  pose proof (Forall_plan_uploads P L R HP) as H1.
  pose proof (Forall_plan_deletes P L R HP) as H2.
  destruct (plan_uploads L R) as [t1 ups].
  destruct (plan_deletes L R) as [t2 dels]. simpl in H1, H2.
  apply Forall_then; [simpl; apply Forall_app; now split|].
  apply Forall_then; [apply Forall_upload_phase; auto|].
  apply Forall_then; [apply Forall_delete_phase; auto|].
  repeat constructor. now apply HP.
Qed.

Lemma store_after_no_call E b s t :
  Forall (fun e => is_call e = false) t -> store_after E b s t = s.
Proof.
  unfold store_after. induction 1 as [|e t He _ IH]; simpl; [reflexivity|].
  destruct e; simpl in *; try discriminate. exact IH.
Qed.

(** ** Dry run *)

(** C3.  With the dry-run flag set, executing an upload or a delete work item
    issues no call on the object store, and neither does the whole run: the
    trace of [sync] holds reports only, so that the bucket is left as it was.
    No event of the model writes to the local tree. *)
Theorem dry_run_issues_no_call self E sched :
  dryRun self = true ->
  (forall item,
      Forall (fun e => is_call e = false) (fst (uploadFile self E item)) /\
      Forall (fun e => is_call e = false) (fst (deleteS3Object self E item)))
  /\ Forall (fun e => is_call e = false) (fst (sync self E sched))
  /\ (forall b s, store_after E b s (fst (sync self E sched)) = s).
Proof.
  intros Hdry.
  assert (Hup : forall f,
             Forall (fun e => is_call e = false) (fst (uploadFile self E f))).
  { intros f. unfold uploadFile. rewrite Hdry. now repeat constructor. }
  assert (Hdel : forall f,
             Forall (fun e => is_call e = false)
                    (fst (deleteS3Object self E f))).
  { intros f. unfold deleteS3Object. rewrite Hdry. now repeat constructor. }
  assert (Hsync : Forall (fun e => is_call e = false)
                         (fst (sync self E sched))).
  { apply Forall_sync; auto. }
  repeat split; auto.
  intros b s. now apply store_after_no_call.
Qed.

Lemma dry_run_issues_no_call_witness :
  Forall (fun e => is_call e = false)
    (fst (sync (example_tool true) (example_env example_files example_listing []) [])).
Proof.
  exact (proj1 (proj2 (dry_run_issues_no_call (example_tool true)
                         (example_env example_files example_listing []) [] eq_refl))).
Defined.

(** ** Deletes after uploads *)

Lemma split_phases (P Q : event -> bool) (A B x y : list event) d :
  Forall (fun e => P e = false) A ->
  Forall (fun e => Q e = false) B ->
  A ++ B = x ++ d :: y -> P d = true ->
  Forall (fun e => Q e = false) y.
Proof.
  intros HA HB. revert x.
  induction HA as [|a A Ha _ IH]; intros x Heq Hd; simpl in Heq.
  - subst B. apply Forall_app in HB as [_ HB]. now inversion HB.
  - destruct x as [|x0 x]; simpl in Heq; injection Heq as E1 E2.
    + congruence.
    + now apply (IH x).
Qed.

(** The trace of a run is the work of the first phases, free of any delete,
    followed by the work of the delete loop, free of any upload. *)
Lemma sync_phases self E sched :
  exists A B,
    fst (sync self E sched) = A ++ B /\
    Forall (fun e => delete_activity e = false) A /\
    Forall (fun e => upload_activity e = false) B.
Proof.
  unfold sync.
  destruct (listLocalFiles self E) as [e|L];
    [exists [Print MStart], []; simpl; repeat constructor|].
  destruct (listS3Objects self E) as [e|R];
    [exists [Print MStart], []; simpl; repeat constructor|].
  assert (Hnote : forall m, note m = true ->
                            delete_activity (Print m) = false)
    by (intros []; simpl; congruence).
  pose proof (Forall_plan_uploads
                (fun e => delete_activity e = false) L R Hnote) as H1.
  pose proof (Forall_plan_deletes
                (fun e => delete_activity e = false) L R Hnote) as H2.
  destruct (plan_uploads L R) as [t1 ups].
  destruct (plan_deletes L R) as [t2 dels]. simpl in H1, H2.
  assert (Hup : Forall (fun e => delete_activity e = false)
                       (fst (upload_phase self E sched ups))).
  { apply Forall_upload_phase; [assumption|].
    intros f _. unfold uploadFile.
    destruct (dryRun self); [now repeat constructor|].
    destruct (s3_upload E _ _ _); now repeat constructor. }
  assert (Hdel : Forall (fun e => upload_activity e = false)
                        (fst (then_ (delete_phase self E dels)
                                ([Print MDone], None)))).
  { apply Forall_then; [|now repeat constructor].
    apply Forall_delete_phase. intros f _. unfold deleteS3Object.
    destruct (dryRun self); [now repeat constructor|].
    destruct (s3_delete E _ _); now repeat constructor. }
  set (rest := then_ (delete_phase self E dels) ([Print MDone], None)) in *.
  destruct (upload_phase self E sched ups) as [tu [e|]]; simpl in Hup.
  - exists (Print MStart :: (t1 ++ t2) ++ tu), []. simpl.
    rewrite app_nil_r. split; [reflexivity|].
    split; [|constructor].
    constructor; [reflexivity|]. rewrite Forall_app, Forall_app. tauto.
  - exists (Print MStart :: (t1 ++ t2) ++ tu), (fst rest).
    split.
    + simpl. destruct rest as [tr rr]. simpl. f_equal. apply app_assoc.
    + split; [|assumption].
      constructor; [reflexivity|]. rewrite Forall_app, Forall_app. tauto.
Qed.

(** C4.  In every run, real ones included, whatever the schedule of the pool:
    once a delete has been issued, no upload is issued or reported any more.
    Every event of the upload phase precedes every delete. *)
Theorem deletes_follow_uploads self E sched before d after :
  fst (sync self E sched) = before ++ d :: after ->
  delete_activity d = true ->
  Forall (fun e => upload_activity e = false) after.
Proof.
  intros Heq Hd.
  destruct (sync_phases self E sched) as [A [B [HAB [HA HB]]]].
  rewrite HAB in Heq.
  exact (split_phases delete_activity upload_activity A B before after d
           HA HB Heq Hd).
Qed.

Lemma deletes_follow_uploads_witness :
  Forall (fun e => upload_activity e = false)
    [Print (MDeleted "backup/c.txt"); Print MDone].
Proof.
  apply (deletes_follow_uploads (example_tool false)
           (example_env example_files example_listing []) []
           [Print MStart; Print (MCurrent "a.txt"); Print (MMissing "b.txt");
            Print (MOrphan "c.txt"); Print (MUploading 1);
            UploadCall "docs/b.txt" "bucket" "backup/b.txt";
            Print (MUploaded "backup/b.txt")]
           (DeleteCall "bucket" "backup/c.txt")).
  - vm_compute. reflexivity.
  - reflexivity.
Defined.

(** ** A failing upload *)

Lemma upload_phase_perm self E sched uploads :
  uploads <> [] -> (0 < maxThreads self)%Z ->
  snd (upload_phase self E sched uploads) = None /\
  Permutation (fst (upload_phase self E sched uploads))
    (Print (MUploading (List.length uploads))
       :: concat (map (fun f => fst (uploadFile self E f)) uploads)).
Proof.
  intros Hne Hpos. unfold upload_phase, run_pool.
  destruct uploads as [|u0 us]; [congruence|].
  cbn [is_nil].
  destruct (Z.leb_spec (maxThreads self) 0) as [Hle|_]; [lia|].
  cbn [fst snd]. split; [reflexivity|].
  apply perm_skip. rewrite map_map. apply pool_run_perm.
Qed.

Lemma uploadFile_real self E f :
  dryRun self = false ->
  fst (uploadFile self E f)
  = match upload_result self E f with
    | Some _ => [upload_call self f]
    | None => [upload_call self f; Print (MUploaded (s3Key_of self f))]
    end.
Proof.
  intros Hreal. unfold uploadFile, upload_result, upload_call, localPath_of.
  rewrite Hreal. now destruct (s3_upload E _ _ _).
Qed.

(** C5 (amended).  In a real run with a positive pool size, when the upload of
    one item of the upload list fails and the others succeed, whatever the
    schedule: the phase does not raise; every other item is uploaded and
    reported as uploaded; the failing item is attempted; and nothing is
    printed about it, since every message of the phase is the announcement of
    the batch or the success report of another item. *)
Theorem upload_failure_isolated self E sched uploads i e :
  dryRun self = false -> (0 < maxThreads self)%Z ->
  In i uploads ->
  upload_result self E i = Some e ->
  (forall j, In j uploads -> j <> i -> upload_result self E j = None) ->
  let t := fst (upload_phase self E sched uploads) in
  snd (upload_phase self E sched uploads) = None
  /\ (forall j, In j uploads -> j <> i ->
      In (upload_call self j) t /\ In (Print (MUploaded (s3Key_of self j))) t)
  /\ In (upload_call self i) t
  /\ (forall m, In (Print m) t ->
      m = MUploading (List.length uploads) \/
      exists j, In j uploads /\ j <> i /\ m = MUploaded (s3Key_of self j)).
Proof.
  intros Hreal Hpos Hi Hfail Hok t.
  assert (Hne : uploads <> []) by (intros ->; contradiction).
  destruct (upload_phase_perm self E sched uploads Hne Hpos) as [Hres HP].
  fold t in HP.
  assert (Hin : forall ev, In ev t <->
            ev = Print (MUploading (List.length uploads)) \/
            exists f, In f uploads /\ In ev (fst (uploadFile self E f))).
  { intros ev. split.
    - intros H. apply (Permutation_in _ HP) in H as [H|H]; [now left|].
      right. apply in_concat in H as [tr [Htr Hev]].
      apply in_map_iff in Htr as [f [<- Hf]]. now exists f.
    - intros H. apply (Permutation_in _ (Permutation_sym HP)).
      destruct H as [->|[f [Hf Hev]]]; [now left|].
      right. apply in_concat. exists (fst (uploadFile self E f)).
      split; [|assumption]. apply in_map_iff. now exists f. }
  split; [assumption|]. split; [|split].
  - intros j Hj Hji.
    pose proof (uploadFile_real self E j Hreal) as Hj'.
    rewrite (Hok j Hj Hji) in Hj'.
    split; apply Hin; right; exists j; (split; [assumption|]);
      rewrite Hj'; simpl; tauto.
  - apply Hin. right. exists i. split; [assumption|].
    rewrite (uploadFile_real self E i Hreal), Hfail. now left.
  - intros m Hm. apply Hin in Hm as [Hm|[f [Hf Hev]]].
    + left. congruence.
    + right. rewrite (uploadFile_real self E f Hreal) in Hev.
      destruct (string_dec f i) as [->|Hfi].
      * rewrite Hfail in Hev. destruct Hev as [Hev|[]]. discriminate.
      * rewrite (Hok f Hf Hfi) in Hev.
        destruct Hev as [Hev|[Hev|[]]]; [discriminate|].
        exists f. repeat split; [assumption..|congruence].
Qed.

Lemma upload_failure_isolated_witness :
  let self := example_tool false in
  let E := example_env example_files [] ["docs/b.txt"] in
  In (Print (MUploaded "backup/a.txt"))
     (fst (upload_phase self E [1; 0] ["a.txt"; "b.txt"])).
Proof.
  intros self E.
  refine (proj2 (proj1 (proj2
            (upload_failure_isolated self E [1; 0] ["a.txt"; "b.txt"]
               "b.txt" ClientError eq_refl _ _ eq_refl _)) "a.txt" _ _)).
  - reflexivity.
  - simpl. tauto.
  - intros j [<-|[<-|[]]] Hj; [reflexivity|congruence].
  - simpl. tauto.
  - discriminate.
Defined.

(** C5 as stated fails: the upload of [b.txt] is refused, the run ends
    normally, and no message of the run reports on the key of [b.txt]. *)
Lemma upload_failure_not_reported :
  let self := example_tool false in
  let E := example_env example_files [] ["docs/b.txt"] in
  upload_result self E "b.txt" = Some ClientError /\
  sync self E []
  = ([Print MStart; Print (MMissing "a.txt"); Print (MMissing "b.txt");
      Print (MUploading 2);
      UploadCall "docs/a.txt" "bucket" "backup/a.txt";
      Print (MUploaded "backup/a.txt");
      UploadCall "docs/b.txt" "bucket" "backup/b.txt";
      Print MDone], None) /\
  existsb (reports_on (s3Key_of self "b.txt")) (fst (sync self E [])) = false.
Proof. vm_compute. repeat split. Qed.

(** ** The fingerprint *)

Lemma firstn_nil_inv {A} n (l : list A) : 0 < n -> firstn n l = [] -> l = [].
Proof. destruct n; [lia|]. now destruct l. Qed.

(** With as much fuel as the file has bytes, the read loop reaches the end
    of the file: the hash object has then absorbed the whole content. *)
Lemma read_loop_all fuel : forall rest fault h,
  List.length rest <= fuel ->
  read_loop fuel rest fault h
  = match fault with
    | Some e => raise e
    | None => ret (h ++ rest)
    end.
Proof.
  induction fuel as [|fuel IH]; intros rest fault h Hlen.
  - destruct rest; [|simpl in Hlen; lia].
    simpl. rewrite app_nil_r. now destruct fault.
  - cbn [read_loop].
    destruct (firstn chunk_size rest) as [|b chunk] eqn:Hc.
    + apply firstn_nil_inv in Hc; [|unfold chunk_size; lia].
      subst rest. rewrite app_nil_r. now destruct fault.
    + rewrite IH.
      * destruct fault; [reflexivity|].
        rewrite <- app_assoc, <- Hc, firstn_skipn. reflexivity.
      * rewrite length_skipn.
        assert (List.length rest <> 0)
          by (destruct rest; [now rewrite firstn_nil in Hc|simpl; lia]).
        unfold chunk_size. lia.
Qed.

Lemma calculateMd5_spec E filePath :
  calculateMd5 E filePath
  = match file_at E filePath with
    | Regular content => ret (MD5.hexdigest content)
    | Faulty _ e | Unopenable e => raise e
    end.
Proof.
  unfold calculateMd5.
  destruct (file_at E filePath) as [c|c e|e]; [| |reflexivity];
    rewrite read_loop_all by lia; reflexivity.
Qed.

(** The identifier of a readable file is the MD5 digest of its bytes: two
    readable files with the same content have the same identifier, whatever
    their paths and whatever else the two worlds hold. *)
Lemma calculateMd5_content_only E1 E2 path1 path2 content :
  file_at E1 path1 = Regular content ->
  file_at E2 path2 = Regular content ->
  calculateMd5 E1 path1 = ret (MD5.hexdigest content) /\
  calculateMd5 E2 path2 = calculateMd5 E1 path1.
Proof.
  intros H1 H2. rewrite !calculateMd5_spec, H1, H2. now split.
Qed.

(** A digest is never the empty string: it has 32 characters. *)
Lemma hexdigest_length m : String.length (MD5.hexdigest m) = 32.
Proof. reflexivity. Qed.

Lemma hexdigest_nonempty m : MD5.hexdigest m <> "".
Proof.
  intros H. pose proof (hexdigest_length m) as Hl.
  rewrite H in Hl. discriminate.
Qed.

(** ** A file that cannot be fingerprinted *)

Lemma for_each_raises {A S} (body : S -> A -> result S) (l : list A) a :
  In a l -> (forall s, exists e, body s a = inl e) ->
  forall s, exists e, for_each body l s = inl e.
Proof.
  intros Hin Hfail.
  induction l as [|x l IH]; intros s; [contradiction|]. simpl.
  destruct (body s x) as [e|s'] eqn:Hb; [now exists e|]. simpl.
  destruct Hin as [->|Hin].
  - destruct (Hfail s) as [e He]. congruence.
  - now apply IH.
Qed.

(** When the fingerprint of a file of the walk fails, the manifest build
    raises and [sync] ends right after its first message. *)
Lemma fingerprint_failure_raises self E root filenames filename e :
  In (root, filenames) (walk E (localFolder self)) ->
  In filename filenames ->
  calculateMd5 E (join2 root filename) = inl e ->
  exists e',
    listLocalFiles self E = inl e' /\
    forall sched, sync self E sched = ([Print MStart], Some e').
Proof.
  intros Hroot Hfile Hfail.
  assert (H : exists e', listLocalFiles self E = inl e').
  { unfold listLocalFiles.
    apply (for_each_raises _ _ (root, filenames)); [assumption|].
    intros files.
    apply (for_each_raises _ _ filename); [assumption|].
    intros files'.
    destruct (relpath (getcwd E) (join2 root filename) (localFolder self));
      [|now exists ValueError].
    rewrite Hfail. now exists e. }
  destruct H as [e' He']. exists e'. split; [assumption|].
  intros sched. unfold sync. now rewrite He'.
Qed.

(** C6 as stated fails: [b.txt] cannot be opened; the build does not return
    the manifest of the remaining file [a.txt], it raises, and so do [sync]
    and [main]. *)
Lemma unreadable_file_aborts_run :
  let self := example_tool false in
  let E := example_env example_files_denied example_listing [] in
  calculateMd5 E "docs/a.txt" = ret "2c1743a391305fbf367df8e4f069f9f9" /\
  calculateMd5 E "docs/b.txt" = raise PermissionError /\
  listLocalFiles self E = raise PermissionError /\
  listLocalFiles self E <> ret [("a.txt", "2c1743a391305fbf367df8e4f069f9f9")] /\
  sync self E [] = ([Print MStart], Some PermissionError) /\
  main self E [] = ([Print MStart], Some PermissionError).
Proof. vm_compute. repeat split. discriminate. Qed.

(** ** Strings: [split], [join] and friends *)

Lemma append_assoc (a b c : string) :
  ((a ++ b) ++ c)%string = (a ++ (b ++ c))%string.
Proof. induction a as [|x a IH]; simpl; [reflexivity|now rewrite IH]. Qed.

Lemma append_nil_r (a : string) : (a ++ "")%string = a.
Proof. induction a as [|x a IH]; simpl; [reflexivity|now rewrite IH]. Qed.

Lemma truthy_append a b : truthy a = true -> truthy (a ++ b) = true.
Proof. now destruct a. Qed.

Lemma startswith_append c a b :
  truthy a = true -> startswith c (a ++ b) = startswith c a.
Proof. now destruct a. Qed.

Lemma endswith_append c a b :
  truthy b = true -> endswith c (a ++ b) = endswith c b.
Proof.
  intros Hb. induction a as [|x a IH]; simpl; [reflexivity|].
  destruct (a ++ b)%string eqn:E; [|assumption].
  destruct a; simpl in E; [subst b|]; discriminate.
Qed.

Lemma endswith_inv c a :
  endswith c a = true -> exists a', a = (a' ++ String c "")%string.
Proof.
  induction a as [|x a IH]; simpl; [discriminate|].
  destruct a as [|y a].
  - intros H. apply Ascii.eqb_eq in H. subst x. now exists "".
  - intros H. destruct (IH H) as [a' Ha']. exists (String x a').
    simpl. now rewrite <- Ha'.
Qed.

Lemma split_not_nil c s : split c s <> [].
Proof.
  destruct s as [|d r]; simpl; [discriminate|].
  destruct (Ascii.eqb d c); [discriminate|].
  destruct (split c r); discriminate.
Qed.

Lemma join_cons_char c d h t :
  PyStr.join c (String d h :: t) = String d (PyStr.join c (h :: t)).
Proof. destruct t; reflexivity. Qed.

Lemma join_cons2 c x y l :
  PyStr.join c (x :: y :: l) = (x ++ String c (PyStr.join c (y :: l)))%string.
Proof. reflexivity. Qed.

Lemma join_split c s : PyStr.join c (split c s) = s.
Proof.
  induction s as [|d r IH]; [reflexivity|]. simpl.
  pose proof (split_not_nil c r) as Hnn.
  destruct (split c r) as [|h t] eqn:E; [congruence|].
  destruct (Ascii.eqb_spec d c) as [->|Hne].
  - rewrite join_cons2, IH. reflexivity.
  - rewrite join_cons_char, IH. reflexivity.
Qed.

Lemma split_append_sep c a b :
  split c (a ++ String c b) = split c a ++ split c b.
Proof.
  induction a as [|d a IH]; simpl.
  - now rewrite Ascii.eqb_refl.
  - rewrite IH. destruct (Ascii.eqb d c); [reflexivity|].
    pose proof (split_not_nil c a) as Hnn.
    destruct (split c a); [congruence|reflexivity].
Qed.

Lemma split_free c s : has_char c s = false -> split c s = [s].
Proof.
  induction s as [|d r IH]; simpl; [reflexivity|].
  intros H. apply orb_false_iff in H as [Hd Hr].
  rewrite Hd, (IH Hr). reflexivity.
Qed.

Lemma split_sep_free c s :
  Forall (fun x => has_char c x = false) (split c s).
Proof.
  induction s as [|d r IH]; simpl; [now repeat constructor|].
  destruct (Ascii.eqb d c) eqn:Ed; [now constructor|].
  destruct (split c r) as [|h t]; [repeat constructor; simpl; now rewrite Ed|].
  inversion IH; subst. constructor; [|assumption].
  simpl. now rewrite Ed.
Qed.

Lemma split_join c l :
  l <> [] -> Forall (fun x => has_char c x = false) l ->
  split c (PyStr.join c l) = l.
Proof.
  induction l as [|x l IH]; intros Hne Hfree; [congruence|].
  inversion Hfree as [|? ? Hx Hl]; subst.
  destruct l as [|y l].
  - simpl. now apply split_free.
  - rewrite join_cons2, split_append_sep, split_free by assumption.
    rewrite IH by (assumption || discriminate). reflexivity.
Qed.

Lemma replace_free a b s : has_char a s = false -> replace a b s = s.
Proof.
  induction s as [|d r IH]; simpl; [reflexivity|].
  intros H. apply orb_false_iff in H as [Hd Hr].
  now rewrite Hd, (IH Hr).
Qed.

Lemma has_char_append c a b :
  has_char c (a ++ b) = has_char c a || has_char c b.
Proof.
  induction a as [|d a IH]; simpl; [reflexivity|].
  now rewrite IH, orb_assoc.
Qed.

Lemma has_char_join c s l :
  Ascii.eqb s c = false ->
  Forall (fun x => has_char c x = false) l ->
  has_char c (PyStr.join s l) = false.
Proof.
  intros Hs. induction 1 as [|x l Hx Hl IH]; [reflexivity|].
  destruct l as [|y l]; [assumption|].
  rewrite join_cons2, has_char_append, Hx.
  cbn [has_char orb]. now rewrite IH, Hs.
Qed.

Lemma lstrip_seps k s : lstrip sep (seps k ++ s) = lstrip sep s.
Proof. induction k as [|k IH]; simpl; [reflexivity|exact IH]. Qed.

(** ** Paths *)

Lemma Forall_removelast {A} (P : A -> Prop) (l : list A) :
  Forall P l -> Forall P (removelast l).
Proof.
  induction 1 as [|x l Hx Hl IH]; simpl; [constructor|].
  destruct l; [constructor|]. now constructor.
Qed.

Lemma norm_step_kept k acc c :
  Forall kept acc -> has_char sep c = false -> Forall kept (norm_step k acc c).
Proof.
  intros Hacc Hc. unfold norm_step.
  destruct (String.eqb_spec c "") as [->|Hne]; simpl; [assumption|].
  destruct (String.eqb c curdir); [assumption|].
  match goal with |- Forall _ (if ?b then _ else _) => destruct b end.
  - apply Forall_app. split; [assumption|]. now repeat constructor.
  - now apply Forall_removelast.
Qed.

Lemma fold_norm_step_kept k comps : forall acc,
  Forall kept acc -> Forall (fun x => has_char sep x = false) comps ->
  Forall kept (fold_left (norm_step k) comps acc).
Proof.
  induction comps as [|c comps IH]; intros acc Hacc Hc; simpl; [assumption|].
  inversion Hc; subst. apply IH; [|assumption]. now apply norm_step_kept.
Qed.

Lemma norm_comps_kept k s : Forall kept (norm_comps k (split sep s)).
Proof.
  apply fold_norm_step_kept; [constructor|apply split_sep_free].
Qed.

Lemma norm_step_slashes k k' acc c :
  k <> 0 -> k' <> 0 -> norm_step k acc c = norm_step k' acc c.
Proof.
  intros Hk Hk'. unfold norm_step.
  destruct k; [congruence|]. destruct k'; [congruence|]. reflexivity.
Qed.

Lemma norm_comps_slashes k k' comps :
  k <> 0 -> k' <> 0 -> norm_comps k comps = norm_comps k' comps.
Proof.
  intros Hk Hk'. unfold norm_comps. generalize (@nil string).
  induction comps as [|c comps IH]; intros acc; simpl; [reflexivity|].
  now rewrite IH, (norm_step_slashes k k').
Qed.

Lemma norm_step_name k acc c :
  is_name c = true -> norm_step k acc c = acc ++ [c].
Proof.
  unfold is_name, norm_step. intros H.
  apply andb_true_iff in H as [H _].
  apply andb_true_iff in H as [H H3].
  apply andb_true_iff in H as [H1 H2].
  apply negb_true_iff in H1, H2. rewrite H1, H2, H3. reflexivity.
Qed.

Lemma fold_norm_step_names k names : forall acc,
  forallb is_name names = true ->
  fold_left (norm_step k) names acc = acc ++ names.
Proof.
  induction names as [|c names IH]; intros acc H; simpl.
  - now rewrite app_nil_r.
  - simpl in H. apply andb_true_iff in H as [Hc Hn].
    rewrite norm_step_name by assumption.
    rewrite IH by assumption. now rewrite <- app_assoc.
Qed.

Lemma initial_slashes_abs p : isabs p = true -> initial_slashes p <> 0.
Proof.
  unfold isabs, startswith, initial_slashes.
  destruct p as [|a [|b [|c r]]]; try discriminate; intros ->;
    try destruct (Ascii.eqb b sep); try destruct (Ascii.eqb c sep);
    discriminate.
Qed.

Lemma kept_join_lstrip l :
  Forall kept l -> lstrip sep (PyStr.join sep l) = PyStr.join sep l.
Proof.
  intros H. destruct H as [|x l [Hx Hf] Hl]; [reflexivity|].
  destruct x as [|d x]; [congruence|].
  rewrite join_cons_char. simpl in Hf. apply orb_false_iff in Hf as [Hd _].
  simpl. now rewrite Hd.
Qed.

Lemma kept_join_truthy l :
  Forall kept l -> truthy (PyStr.join sep l) = negb (is_nil l).
Proof.
  intros H. destruct H as [|x l [Hx Hf] Hl]; [reflexivity|].
  destruct x as [|d x]; [congruence|]. now rewrite join_cons_char.
Qed.

(** The components of a normalized absolute path. *)
Lemma tail_list_normpath p :
  isabs p = true ->
  tail_list (normpath p) = norm_comps 1 (split sep p).
Proof.
  intros Habs. pose proof (initial_slashes_abs p Habs) as Hk.
  unfold normpath.
  destruct p as [|a r]; [discriminate|]. cbn [truthy negb].
  set (q := String a r) in *. set (k := initial_slashes q) in *.
  rewrite (norm_comps_slashes k 1) by (assumption || discriminate).
  pose proof (norm_comps_kept 1 q) as HN.
  set (N := norm_comps 1 (split sep q)) in *.
  destruct k as [|k]; [congruence|]. cbn [seps append truthy].
  unfold tail_list. cbn [lstrip]. rewrite Ascii.eqb_refl.
  rewrite lstrip_seps, kept_join_lstrip, kept_join_truthy by assumption.
  destruct N as [|x N]; [reflexivity|]. cbn [is_nil negb].
  apply split_join; [discriminate|].
  eapply Forall_impl; [|exact HN]. intros c [_ Hc]. exact Hc.
Qed.

Lemma is_normalized_not_abs p : is_normalized p = true -> isabs p = false.
Proof.
  unfold is_normalized, isabs, startswith.
  destruct p as [|d r]; [reflexivity|]. simpl.
  destruct (Ascii.eqb d sep); [|reflexivity].
  simpl. discriminate.
Qed.

Lemma is_normalized_truthy p : is_normalized p = true -> truthy p = true.
Proof. destruct p; [discriminate|reflexivity]. Qed.

(** Below an absolute path, a normalized relative path adds its own
    components and nothing else. *)
Lemma norm_comps_join2 x p :
  isabs x = true -> is_normalized p = true ->
  norm_comps 1 (split sep (join2 x p))
  = norm_comps 1 (split sep x) ++ split sep p.
Proof.
  intros Habs Hp. unfold join2.
  pose proof (is_normalized_not_abs p Hp) as Hnp.
  unfold isabs in Hnp. rewrite Hnp.
  assert (Hx : truthy x = true) by (destruct x; [discriminate|reflexivity]).
  rewrite Hx. cbn [negb orb].
  unfold norm_comps.
  destruct (endswith sep x) eqn:Hend.
  - apply endswith_inv in Hend as [x' ->].
    rewrite append_assoc. cbn [append].
    rewrite !split_append_sep, !fold_left_app. cbn [split fold_left].
    rewrite fold_norm_step_names by exact Hp.
    reflexivity.
  - rewrite split_append_sep, fold_left_app.
    now rewrite fold_norm_step_names by exact Hp.
Qed.

Lemma common_len_app l r : common_len l (l ++ r) = List.length l.
Proof.
  induction l as [|x l IH]; [now destruct r|].
  simpl. now rewrite String.eqb_refl, IH.
Qed.

Lemma join2_assoc c pre p :
  truthy c = true -> truthy pre = true ->
  isabs pre = false -> isabs p = false ->
  join2 c (join2 pre p) = join2 (join2 c pre) p.
Proof.
  intros Hc Hpre Hna Hnp. unfold join2 at 2 4.
  unfold isabs in *. rewrite Hnp, Hna, Hpre, Hc. cbn [negb orb].
  assert (Hj : forall z, truthy z = true -> startswith sep z = false ->
                join2 c z = if endswith sep c then (c ++ z)%string
                            else (c ++ String sep z)%string).
  { intros z Hz Hs. unfold join2. now rewrite Hs, Hc. }
  assert (Hq : truthy (if endswith sep pre then (pre ++ p)%string
                       else (pre ++ String sep p)%string) = true)
    by (destruct (endswith sep pre); now apply truthy_append).
  assert (Hs : startswith sep (if endswith sep pre then (pre ++ p)%string
                               else (pre ++ String sep p)%string) = false)
    by (destruct (endswith sep pre); now rewrite startswith_append).
  rewrite (Hj _ Hq Hs).
  unfold join2.
  assert (Hcp : forall w, truthy (w ++ pre) = true)
    by (intros w; destruct w; [exact Hpre|reflexivity]).
  destruct (endswith sep c).
  - rewrite Hnp, (Hcp c), (endswith_append sep c pre Hpre). cbn [negb orb].
    destruct (endswith sep pre); now rewrite append_assoc.
  - rewrite Hnp.
    assert (Hcp' : truthy (c ++ String sep pre) = true)
      by (destruct c; reflexivity).
    rewrite Hcp'. cbn [negb orb].
    assert (He : endswith sep (c ++ String sep pre) = endswith sep pre).
    { rewrite (endswith_append sep c (String sep pre)) by reflexivity.
      destruct pre; [discriminate|reflexivity]. }
    rewrite He.
    destruct (endswith sep pre); now rewrite append_assoc.
Qed.

Lemma isabs_join2 x p :
  truthy x = true -> isabs p = false -> isabs (join2 x p) = isabs x.
Proof.
  intros Hx Hp. unfold join2, isabs in *. rewrite Hp, Hx. cbn [negb orb].
  destruct (endswith sep x); now apply startswith_append.
Qed.

(** The relative path of [os.path.join(pre, p)] from [pre] is [p]. *)
Lemma relpath_join2 cwd_t pre p :
  truthy pre = true -> is_normalized p = true ->
  relpath (String sep cwd_t) (join2 pre p) pre = Some p.
Proof.
  intros Hpre Hp.
  pose proof (is_normalized_not_abs p Hp) as Hnp.
  assert (Htr : truthy (join2 pre p) = true).
  { unfold join2. unfold isabs in Hnp. rewrite Hnp, Hpre. cbn [negb orb].
    destruct (endswith sep pre); now apply truthy_append. }
  unfold relpath. rewrite Htr. cbn [negb].
  assert (Habs : exists x,
             isabs x = true /\
             abspath (String sep cwd_t) pre = normpath x /\
             abspath (String sep cwd_t) (join2 pre p) = normpath (join2 x p)).
  { unfold abspath. rewrite (isabs_join2 pre p Hpre Hnp).
    destruct (isabs pre) eqn:Ha.
    - now exists pre.
    - exists (join2 (String sep cwd_t) pre). split; [|split].
      + rewrite isabs_join2; [|reflexivity|assumption].
        reflexivity.
      + reflexivity.
      + now rewrite join2_assoc. }
  destruct Habs as [x [Hx [-> ->]]].
  rewrite !tail_list_normpath;
    [|rewrite isabs_join2; [assumption| |assumption];
      destruct x; [discriminate|reflexivity]|assumption].
  rewrite norm_comps_join2 by assumption.
  rewrite common_len_app, Nat.sub_diag, skipn_app, skipn_all, Nat.sub_diag.
  cbn [repeat skipn app].
  pose proof (split_not_nil sep p) as Hnn.
  destruct (split sep p) as [|h t] eqn:Es; [congruence|].
  cbn [is_nil]. now rewrite <- Es, join_split.
Qed.

Lemma is_normalized_no_backslash p :
  is_normalized p = true -> has_char backslash p = false.
Proof.
  unfold is_normalized. intros H.
  rewrite <- (join_split sep p).
  apply has_char_join; [reflexivity|].
  apply Forall_forall. intros c Hc.
  rewrite forallb_forall in H. specialize (H c Hc).
  unfold is_name in H. apply andb_true_iff in H as [_ H].
  now apply negb_true_iff in H.
Qed.

(** What [listS3Objects] computes for a key that stands for a normalized
    relative path below the prefix. *)
Lemma relativeKey_of_key_under self E p :
  (truthy (prefix self) = true -> is_normalized p = true) ->
  relativeKey_of self E (key_under (prefix self) p) = ret p.
Proof.
  intros Hp. unfold relativeKey_of, key_under, getcwd.
  destruct (truthy (prefix self)) eqn:Hpre; [|reflexivity].
  specialize (Hp eq_refl).
  rewrite relpath_join2 by assumption.
  now rewrite replace_free by now apply is_normalized_no_backslash.
Qed.

(** ** Keys: upload and listing *)

(** C10 (amended).  For a non-empty prefix without a backslash and a
    normalized relative path [p], the relative key that the listing computes
    for the key under which [p] is uploaded is [p] again, in any working
    directory. *)
Theorem upload_key_round_trip self E p :
  truthy (prefix self) = true ->
  has_char backslash (prefix self) = false ->
  is_normalized p = true ->
  relativeKey_of self E (s3Key_of self p) = ret p.
Proof.
  intros Hpre Hbs Hp.
  assert (Hkey : s3Key_of self p = key_under (prefix self) p).
  { unfold s3Key_of, key_under. rewrite Hpre.
    apply replace_free. unfold join2.
    pose proof (is_normalized_no_backslash p Hp) as Hpb.
    destruct (startswith sep p); [assumption|].
    destruct (negb (truthy (prefix self)) || endswith sep (prefix self));
      rewrite has_char_append, Hbs; simpl; [assumption|].
    exact Hpb. }
  rewrite Hkey. apply relativeKey_of_key_under. intros _. exact Hp.
Qed.

Lemma upload_key_round_trip_witness :
  relativeKey_of (example_tool false)
    (example_env example_files example_listing [])
    (s3Key_of (example_tool false) "sub/b.txt")
  = ret "sub/b.txt".
Proof.
  apply (upload_key_round_trip (example_tool false)
           (example_env example_files example_listing []) "sub/b.txt").
  - reflexivity.
  - reflexivity.
  - reflexivity.
Defined.

(** C10 as stated fails: with a backslash in the prefix, the upload key has
    a slash in its place, and the listing maps that key to a path that
    climbs out of the prefix. *)
Lemma upload_key_backslash_prefix :
  let self := backslash_tool in
  let E := example_env example_files [] [] in
  truthy (prefix self) = true /\
  is_normalized "x.txt" = true /\
  s3Key_of self "x.txt" = "a/b/x.txt" /\
  relativeKey_of self E (s3Key_of self "x.txt") = ret "../a/b/x.txt" /\
  relativeKey_of self E (s3Key_of self "x.txt") <> ret "x.txt".
Proof. vm_compute. repeat split. discriminate. Qed.

Lemma for_each_app {A S} (body : S -> A -> result S) l1 l2 s :
  for_each body (l1 ++ l2) s
  = (s' <- for_each body l1 s ;; for_each body l2 s').
Proof.
  revert s. induction l1 as [|a l1 IH]; intros s; simpl; [reflexivity|].
  destruct (body s a) as [e|s']; simpl; [reflexivity|apply IH].
Qed.

Lemma for_each_concat {A B S} (body : S -> A -> result S) (f : B -> list A)
    pages s :
  for_each (fun s pg => for_each body (f pg) s) pages s
  = for_each body (concat (map f pages)) s.
Proof.
  revert s. induction pages as [|pg pages IH]; intros s; simpl; [reflexivity|].
  rewrite for_each_app.
  destruct (for_each body (f pg) s) as [e|s']; simpl; [reflexivity|apply IH].
Qed.

Lemma setitem_fresh {V} (d : dict V) k v :
  ~ In k (keys d) -> setitem d k v = d ++ [(k, v)].
Proof.
  unfold keys. induction d as [|[k' v'] r IH]; simpl; intros H; [reflexivity|].
  destruct (String.eqb_spec k k') as [->|Hne]; [tauto|].
  rewrite IH by tauto. reflexivity.
Qed.

(** A listing of keys that all stand for distinct normalized paths under
    the prefix is recorded entry by entry, in its order. *)
Lemma listS3Objects_clean_listing self E pages entries :
  s3_pages E (bucketName self) (prefix self) = ret pages ->
  concat (map contents pages) = map (object_of self) entries ->
  NoDup (map fst entries) ->
  (truthy (prefix self) = true ->
   forallb (fun entry => is_normalized (fst entry)) entries = true) ->
  listS3Objects self E = ret (map unquoted entries).
Proof.
  intros Hpages Hobjs Hnd Hnorm.
  unfold listS3Objects. rewrite Hpages. cbn [bind ret].
  rewrite for_each_concat, Hobjs.
  change (@empty string) with (map unquoted []).
  assert (H : forall done todo,
             NoDup (map fst (done ++ todo)) ->
             (truthy (prefix self) = true ->
              forallb (fun entry => is_normalized (fst entry)) todo = true) ->
             for_each (record_object self E)
               (map (object_of self) todo) (map unquoted done)
             = ret (map unquoted (done ++ todo))).
  { intros done todo. revert done.
    induction todo as [|[p tag] todo IH]; intros done Hnd' Hn'.
    - now rewrite app_nil_r.
    - cbn [map for_each]. unfold record_object at 1.
      cbn [object_of Key ETag fst snd].
      rewrite relativeKey_of_key_under.
      2:{ intros Ht. specialize (Hn' Ht). simpl in Hn'.
          now apply andb_true_iff in Hn' as [Hn' _]. }
      cbn [bind ret]. rewrite setitem_fresh.
      + replace (map unquoted done ++ [(p, strip dquote tag)])
          with (map unquoted (done ++ [(p, tag)]))
          by now rewrite map_app.
        rewrite IH.
        * now rewrite <- app_assoc.
        * now rewrite <- app_assoc.
        * intros Ht. specialize (Hn' Ht). simpl in Hn'.
          now apply andb_true_iff in Hn' as [_ Hn'].
      + unfold keys. rewrite map_map. cbn [unquoted fst].
        rewrite map_app in Hnd'. apply NoDup_remove_2 in Hnd'.
        intros Hin. apply Hnd'. apply in_or_app. now left. }
  apply (H [] entries); assumption.
Qed.

Lemma relativeKey_of_total self E key :
  truthy key = true -> exists rk, relativeKey_of self E key = ret rk.
Proof.
  intros Hk. unfold relativeKey_of, relpath.
  destruct (truthy (prefix self)); [|now exists key].
  rewrite Hk. cbn [negb]. eexists. reflexivity.
Qed.

Lemma record_objects_total self E objs : forall acc,
  Forall (fun o => truthy (Key o) = true) objs ->
  exists m, for_each (record_object self E) objs acc = ret m.
Proof.
  induction objs as [|o objs IH]; intros acc H; [now exists acc|].
  inversion H as [|? ? Ho Hobjs]; subst. cbn [for_each].
  unfold record_object at 1.
  destruct (relativeKey_of_total self E (Key o) Ho) as [rk ->].
  cbn [bind ret]. now apply IH.
Qed.

(** Objects recorded under other relative keys leave the entry of [k] alone. *)
Lemma record_objects_other self E k objs : forall acc m,
  for_each (record_object self E) objs acc = ret m ->
  Forall (fun o => relativeKey_of self E (Key o) <> ret k) objs ->
  get m k = get acc k.
Proof.
  induction objs as [|o objs IH]; intros acc m Hm H.
  - simpl in Hm. injection Hm as <-. reflexivity.
  - inversion H as [|? ? Ho Hobjs]; subst. cbn [for_each] in Hm.
    unfold record_object at 1 in Hm.
    destruct (relativeKey_of self E (Key o)) as [e|rk] eqn:Erk;
      [discriminate|].
    cbn [bind ret] in Hm.
    rewrite (IH _ _ Hm Hobjs), get_setitem.
    destruct (String.eqb_spec k rk) as [->|_]; [|reflexivity].
    exfalso. now apply Ho.
Qed.

(** C7 (amended).  The listing, across all pages, is recorded in full when
    its keys are not empty.  For every object of the listing whose key
    stands for a relative path [p] under the prefix (the prefix joined with
    a normalized [p]; with an empty prefix the key is [p] itself, as it is),
    the remote manifest maps [p] to the tag of the object stripped of its
    quote characters, unless a later object of the listing is recorded under
    the same relative key. *)
Theorem listS3Objects_records self E pages before o after p :
  s3_pages E (bucketName self) (prefix self) = ret pages ->
  concat (map contents pages) = before ++ o :: after ->
  Forall (fun o' => truthy (Key o') = true) (concat (map contents pages)) ->
  Key o = key_under (prefix self) p ->
  (truthy (prefix self) = true -> is_normalized p = true) ->
  Forall (fun o' => relativeKey_of self E (Key o') <> ret p) after ->
  exists m,
    listS3Objects self E = ret m /\
    get m p = Some (strip dquote (ETag o)).
Proof.
  intros Hpages Hsplit Hkeys Hkey Hp Hafter.
  unfold listS3Objects. rewrite Hpages. cbn [bind ret].
  rewrite for_each_concat.
  destruct (record_objects_total self E _ empty Hkeys) as [m Hm].
  exists m. split; [exact Hm|].
  rewrite Hsplit, for_each_app in Hm.
  destruct (for_each (record_object self E) before empty) as [e|m1];
    [discriminate|].
  cbn [bind for_each] in Hm. unfold record_object at 1 in Hm.
  rewrite Hkey, (relativeKey_of_key_under self E p Hp) in Hm.
  cbn [bind ret] in Hm.
  rewrite (record_objects_other self E p after _ m Hm Hafter), get_setitem.
  now rewrite String.eqb_refl.
Qed.

Lemma listS3Objects_records_witness :
  exists m,
    listS3Objects (example_tool false)
      (example_env example_files example_listing []) = ret m /\
    get m "a.txt" = Some "2c1743a391305fbf367df8e4f069f9f9".
Proof.
  apply (listS3Objects_records (example_tool false)
           (example_env example_files example_listing [])
           example_listing []
           (mkObj "backup/a.txt" (quoted "2c1743a391305fbf367df8e4f069f9f9"))
           [mkObj "backup/c.txt" (quoted "d3")] "a.txt").
  - reflexivity.
  - vm_compute. reflexivity.
  - repeat constructor.
  - reflexivity.
  - intros _. reflexivity.
  - repeat constructor. vm_compute. discriminate.
Defined.

(** C7 as stated fails: the listing under the prefix [foo] returns the key
    [foobar/x.txt]; the manifest has no entry for the key without the
    prefix, it records a path that climbs out of the prefix.  Likewise the
    key [foo/] under the prefix [foo/] is recorded as [.]. *)
Lemma listS3Objects_sibling_key :
  let self := foo_tool in
  let E := example_env example_files foo_listing [] in
  spec_relative_key (prefix self) "foobar/x.txt" = "bar/x.txt" /\
  listS3Objects self E = ret [("../foobar/x.txt", "e")] /\
  get [("../foobar/x.txt", "e")] "bar/x.txt" = None /\
  relativeKey_of (mkTool "docs" "bucket" "foo/" false 5) E "foo/" = ret ".".
Proof. vm_compute. repeat split. Qed.

(** ** The manifests that the builders return *)

Lemma for_each_invariant {A S} (P : S -> Prop) (body : S -> A -> result S) l :
  (forall s a s', P s -> body s a = ret s' -> P s') ->
  forall s s', P s -> for_each body l s = ret s' -> P s'.
Proof.
  intros Hbody. induction l as [|a l IH]; intros s s' Hs H; simpl in H.
  - injection H as <-. exact Hs.
  - destruct (body s a) as [e|s1] eqn:Hb; [discriminate|].
    simpl in H. eapply IH; [|exact H]. eapply Hbody; eassumption.
Qed.

Lemma nonempty_ids_setitem (d : dict string) k v :
  nonempty_ids d -> v <> "" -> nonempty_ids (setitem d k v).
Proof.
  intros Hd Hv p l. rewrite get_setitem.
  destruct (String.eqb p k); [congruence|apply Hd].
Qed.

(** The local manifest has unique keys, and its identifiers are digests of
    32 characters: none of them is empty. *)
Lemma listLocalFiles_manifest self E L :
  listLocalFiles self E = ret L -> wf L /\ nonempty_ids L.
Proof.
  unfold listLocalFiles.
  apply (for_each_invariant (fun d => wf d /\ nonempty_ids d)).
  - intros s [root filenames] s' Hs.
    apply (for_each_invariant (fun d => wf d /\ nonempty_ids d));
      [|exact Hs].
    intros files filename files' [Hwf Hne].
    destruct (relpath _ _ _) as [rel|]; [|discriminate].
    rewrite calculateMd5_spec.
    destruct (file_at E _) as [c|c e|e]; try discriminate.
    cbn [bind ret]. intros [= <-]. split.
    + now apply wf_setitem.
    + apply nonempty_ids_setitem; [assumption|apply hexdigest_nonempty].
  - split; [constructor|]. intros p l. discriminate.
Qed.

Lemma listS3Objects_manifest self E R : listS3Objects self E = ret R -> wf R.
Proof.
  unfold listS3Objects.
  destruct (s3_pages E _ _) as [e|pages]; [discriminate|]. cbn [bind].
  apply (for_each_invariant (fun d => wf d)); [|constructor].
  intros s pg s' Hs.
  apply (for_each_invariant (fun d => wf d)); [|exact Hs].
  intros objects obj objects' Hwf. unfold record_object.
  destruct (relativeKey_of self E (Key obj)); [discriminate|].
  cbn [bind ret]. intros [= <-]. now apply wf_setitem.
Qed.

(** ** The manifests that [sync] reconciles *)

(** C1.  For every pair of manifests that the two builders return, the
    reconciliation of [sync] puts a path on the upload list exactly when the
    local manifest has it and the remote manifest lacks it or holds another
    identifier for it; a path that both manifests map to the same identifier
    is on neither list; a path is on the delete list exactly when the remote
    manifest has it and the local manifest lacks it; no path is on both
    lists or twice on one.  On the example scenario the lists are [b.txt]
    and [c.txt]. *)
Theorem sync_manifests_classified :
  (forall self E (L R : dict string),
      listLocalFiles self E = ret L -> listS3Objects self E = ret R ->
      forall p,
        let U := fst (reconcile L R) in
        let D := snd (reconcile L R) in
        (In p U <->
         exists l, get L p = Some l /\
                   (get R p = None \/ exists r, get R p = Some r /\ r <> l))
        /\ (forall l, get L p = Some l -> get R p = Some l ->
            ~ In p U /\ ~ In p D)
        /\ (In p D <-> contains R p = true /\ contains L p = false)
        /\ ~ (In p U /\ In p D)
        /\ NoDup U /\ NoDup D)
  /\ reconcile example_local example_remote = (["b.txt"], ["c.txt"]).
Proof.
  split; [|reflexivity].
  intros self E L R HL HR p U D.
  destruct (listLocalFiles_manifest self E L HL) as [Hwf Hne].
  pose proof (listS3Objects_manifest self E R HR) as HwfR.
  destruct (proj1 reconcile_characterized L R Hwf HwfR p)
    as [HU [HD [Hdisj [NU [ND Hsame]]]]].
  fold U D in HU, HD, Hdisj, NU, ND, Hsame.
  assert (Hl0 : forall l, get L p = Some l -> l <> "")
    by (intros l Hl ->; now apply (Hne p "")).
  split; [|split; [|split; [exact HD|split; [exact Hdisj|now split]]]].
  - split.
    + intros Hin. apply HU in Hin as [l [Hl Hcase]]. exists l.
      split; [assumption|].
      destruct Hcase as [Hn|[He|Hr]]; [now left| |now right].
      right. exists "". split; [assumption|].
      intros <-. now apply (Hl0 "").
    + intros [l [Hl Hcase]]. apply HU. exists l. split; [assumption|].
      destruct Hcase as [Hn|Hr]; [now left|now right; right].
  - intros l Hl Hr. apply (Hsame l Hl Hr). now apply Hl0.
Qed.

Lemma sync_manifests_classified_witness :
  let L : dict string :=
    [("a.txt", "2c1743a391305fbf367df8e4f069f9f9");
     ("b.txt", "987bcab01b929eb2c07877b224215c92")] in
  let R : dict string :=
    [("a.txt", "2c1743a391305fbf367df8e4f069f9f9"); ("c.txt", "d3")] in
  ~ In "a.txt" (fst (reconcile L R)) /\ ~ In "a.txt" (snd (reconcile L R)).
Proof.
  intros L R.
  refine (proj1 (proj2 (proj1 sync_manifests_classified (example_tool false)
            (example_env example_files example_listing []) L R _ _ "a.txt"))
            "2c1743a391305fbf367df8e4f069f9f9" eq_refl eq_refl).
  - vm_compute. reflexivity.
  - vm_compute. reflexivity.
Defined.

(** C2.  The reconciliation of [sync] is idempotent: for every pair of
    manifests that the two builders return, reconciling the local manifest
    against the remote manifest that reflects the first run (each path of the
    upload list set to its local identifier, each path of the delete list
    removed) yields an empty upload list and an empty delete list. *)
Theorem sync_manifests_idempotent self E L R :
  listLocalFiles self E = ret L -> listS3Objects self E = ret R ->
  reconcile L (reflect_run L R (fst (reconcile L R)) (snd (reconcile L R)))
  = ([], []).
Proof.
  intros HL HR. destruct (listLocalFiles_manifest self E L HL) as [Hwf Hne].
  apply reconcile_reflect_nil; [assumption| |assumption].
  exact (listS3Objects_manifest self E R HR).
Qed.

Lemma sync_manifests_idempotent_witness :
  let L : dict string :=
    [("a.txt", "2c1743a391305fbf367df8e4f069f9f9");
     ("b.txt", "987bcab01b929eb2c07877b224215c92")] in
  let R : dict string :=
    [("a.txt", "2c1743a391305fbf367df8e4f069f9f9"); ("c.txt", "d3")] in
  reconcile L (reflect_run L R ["b.txt"] ["c.txt"]) = ([], []).
Proof.
  intros L R.
  refine (sync_manifests_idempotent (example_tool false)
            (example_env example_files example_listing []) L R _ _).
  - vm_compute. reflexivity.
  - vm_compute. reflexivity.
Defined.

Lemma for_each_ext {A S} (f g : S -> A -> result S) l :
  (forall s a, f s a = g s a) ->
  forall s, for_each f l s = for_each g l s.
Proof.
  intros H. induction l as [|a l IH]; intros s; simpl; [reflexivity|].
  rewrite H. destruct (g s a); simpl; [reflexivity|apply IH].
Qed.

Lemma for_each_map {A B S} (body : S -> B -> result S) (g : A -> B) l :
  forall s, for_each body (map g l) s = for_each (fun s a => body s (g a)) l s.
Proof.
  induction l as [|a l IH]; intros s; simpl; [reflexivity|].
  destruct (body s (g a)); simpl; [reflexivity|apply IH].
Qed.

(** ** The first file that cannot be fingerprinted *)

(** [listLocalFiles] is one loop over the files of the walk. *)
Lemma listLocalFiles_flat self E :
  listLocalFiles self E
  = for_each (record_path self E) (walked_files E (localFolder self)) empty.
Proof.
  unfold listLocalFiles, walked_files. rewrite <- for_each_concat.
  apply for_each_ext. intros s [root filenames]. cbn [fst snd].
  now rewrite for_each_map.
Qed.

Lemma record_paths_total self E files : forall acc,
  Forall (fingerprinted E) files ->
  exists m, for_each (record_path self E) files acc = ret m.
Proof.
  induction files as [|f files IH]; intros acc H; [now exists acc|].
  inversion H as [|? ? [Ht [id Hid]] Hfiles]; subst.
  cbn [for_each]. unfold record_path at 1, relpath.
  rewrite Ht, Hid. cbn [negb bind ret]. now apply IH.
Qed.

(** C6 (amended).  When the fingerprint of a file of the walk fails and the
    files that the walk yields before it are fingerprinted, the manifest
    build raises the exception of that file: no local manifest is returned,
    and [sync] ends with that exception right after its first message,
    before any listing, classification or transfer. *)
Theorem fingerprint_failure_aborts self E before fullPath after e :
  walked_files E (localFolder self) = before ++ fullPath :: after ->
  Forall (fingerprinted E) before ->
  truthy fullPath = true ->
  calculateMd5 E fullPath = raise e ->
  listLocalFiles self E = raise e /\
  forall sched, sync self E sched = ([Print MStart], Some e).
Proof.
  intros Hwalk Hbefore Hpath Hfail.
  assert (H : listLocalFiles self E = raise e).
  { rewrite listLocalFiles_flat, Hwalk, for_each_app.
    destruct (record_paths_total self E before empty Hbefore) as [m ->].
    cbn [bind for_each]. unfold record_path at 1, relpath.
    rewrite Hpath, Hfail. reflexivity. }
  split; [exact H|].
  intros sched. unfold sync. now rewrite H.
Qed.

Lemma fingerprint_failure_aborts_witness :
  listLocalFiles (example_tool false)
    (example_env example_files_denied example_listing [])
  = raise PermissionError /\
  forall sched,
    sync (example_tool false)
      (example_env example_files_denied example_listing []) sched
    = ([Print MStart], Some PermissionError).
Proof.
  apply (fingerprint_failure_aborts (example_tool false)
           (example_env example_files_denied example_listing [])
           ["docs/a.txt"] "docs/b.txt" [] PermissionError).
  - reflexivity.
  - constructor; [|constructor]. split; [reflexivity|].
    exists "2c1743a391305fbf367df8e4f069f9f9". vm_compute. reflexivity.
  - reflexivity.
  - reflexivity.
Defined.

(** With two files at fault the run ends with the exception of the first:
    here [a.txt] has vanished and [b.txt] cannot be opened. *)
Lemma first_fault_wins :
  let E := example_env example_files_two_faults example_listing [] in
  calculateMd5 E "docs/b.txt" = raise PermissionError /\
  listLocalFiles (example_tool false) E = raise FileNotFoundError /\
  sync (example_tool false) E [] = ([Print MStart], Some FileNotFoundError).
Proof. vm_compute. repeat split. Qed.

(** * Further properties *)

(** ** The fingerprint and the local manifest *)

(** X1.  The fingerprint of a file that reads without error is the MD5
    digest of its whole content, whatever its size against the chunk of 4096
    bytes; when [open] or a read raises, [calculateMd5] raises the same. *)
Theorem calculateMd5_reads_whole_file E filePath :
  calculateMd5 E filePath
  = match file_at E filePath with
    | Regular content => ret (MD5.hexdigest content)
    | Faulty _ e | Unopenable e => raise e
    end.
Proof. exact (calculateMd5_spec E filePath). Qed.

(** X2.  A local manifest that [listLocalFiles] returns has unique keys, and
    each of its identifiers has 32 characters. *)
Theorem listLocalFiles_identifiers self E L :
  listLocalFiles self E = ret L ->
  wf L /\ forall p l, get L p = Some l -> String.length l = 32.
Proof.
  unfold listLocalFiles.
  set (P := fun d : dict string =>
              wf d /\ forall p l, get d p = Some l -> String.length l = 32).
  apply (for_each_invariant P).
  - intros s [root filenames] s' Hs.
    apply (for_each_invariant P); [|exact Hs].
    intros files filename files' [Hwf Hlen].
    destruct (relpath _ _ _) as [rel|]; [|discriminate].
    rewrite calculateMd5_spec.
    destruct (file_at E _) as [c|c e|e]; try discriminate.
    cbn [bind ret]. intros [= <-]. split; [now apply wf_setitem|].
    intros p l. rewrite get_setitem.
    destruct (String.eqb p _); [intros [= <-]; apply hexdigest_length|].
    apply Hlen.
  - split; [constructor|]. intros p l. discriminate.
Qed.

Lemma listLocalFiles_identifiers_witness :
  wf [("a.txt", "2c1743a391305fbf367df8e4f069f9f9");
      ("b.txt", "987bcab01b929eb2c07877b224215c92")] /\
  forall p l,
    get [("a.txt", "2c1743a391305fbf367df8e4f069f9f9");
         ("b.txt", "987bcab01b929eb2c07877b224215c92")] p = Some l ->
    String.length l = 32.
Proof.
  apply (listLocalFiles_identifiers (example_tool false)
           (example_env example_files example_listing [])).
  vm_compute. reflexivity.
Defined.

(** ** What the classification prints *)

Lemma plan_uploads_full R l : forall out ups,
  fold_left (classify_local R) l (out, ups)
  = (out ++ map (fun item => Print (verdict R item)) l,
     ups ++ map fst (filter (needs_upload R) l)).
Proof.
  induction l as [|[p m] r IH]; intros out ups; simpl.
  - now rewrite !app_nil_r.
  - unfold needs_upload at 1, verdict at 1. simpl.
    destruct (get R p) as [s|]; simpl.
    + destruct (truthy s); simpl.
      * destruct (String.eqb m s); simpl; rewrite IH;
          now rewrite <- ?app_assoc.
      * rewrite IH. now rewrite <- !app_assoc.
    + rewrite IH. now rewrite <- !app_assoc.
Qed.

Lemma plan_deletes_full L l : forall out dels,
  fold_left (classify_remote L) l (out, dels)
  = (out ++ map (fun k => Print (MOrphan k)) (filter (orphaned L) l),
     dels ++ filter (orphaned L) l).
Proof.
  induction l as [|k r IH]; intros out dels; simpl.
  - now rewrite !app_nil_r.
  - change (negb (contains L k)) with (orphaned L k).
    destruct (orphaned L k); simpl; rewrite IH; [|reflexivity].
    now rewrite <- !app_assoc.
Qed.

(** X3.  The classification reports what it decides: the first loop gives
    one verdict for each local path, in the order of the local manifest; the
    paths reported as missing or changed are the upload list; the paths
    reported as orphaned are the delete list. *)
Theorem classification_reports_the_plan (L R : dict string) :
  verdict_paths (fst (plan_uploads L R)) = keys L /\
  flagged_paths (fst (plan_uploads L R)) = fst (reconcile L R) /\
  fst (plan_deletes L R)
  = map (fun k => Print (MOrphan k)) (snd (reconcile L R)).
Proof.
  rewrite reconcile_filter.
  unfold plan_uploads, plan_deletes, items.
  rewrite plan_uploads_full, plan_deletes_full. cbn [fst snd app].
  repeat split.
  - unfold keys. induction L as [|[p m] L IH]; [reflexivity|].
    cbn [map]. unfold verdict at 1. cbn [fst snd].
    destruct (get R p) as [s|];
      [destruct (negb (truthy s)); [|destruct (negb (String.eqb m s))]|];
      cbn [verdict_paths flat_map app]; f_equal; exact IH.
  - induction L as [|[p m] L IH]; [reflexivity|].
    cbn [map filter]. unfold verdict at 1, needs_upload at 1. cbn [fst snd].
    destruct (get R p) as [s|];
      [destruct (negb (truthy s)); [|destruct (negb (String.eqb m s))]|];
      cbn [orb flagged_paths flat_map app map fst]; try f_equal; exact IH.
Qed.

(** ** Runs of [sync] *)

(** [sync] after both manifests are built. *)
Lemma sync_unfold self E sched L R :
  listLocalFiles self E = ret L -> listS3Objects self E = ret R ->
  sync self E sched
  = then_ ([Print MStart], None)
      (then_ (fst (plan_uploads L R) ++ fst (plan_deletes L R), None)
         (then_ (upload_phase self E sched (fst (reconcile L R)))
            (then_ (delete_phase self E (snd (reconcile L R)))
               ([Print MDone], None)))).
Proof.
  intros HL HR. unfold sync, reconcile. rewrite HL, HR. unfold ret.
  destruct (plan_uploads L R) as [t1 ups].
  destruct (plan_deletes L R) as [t2 dels]. reflexivity.
Qed.


(** X4.  Manifests that agree leave nothing to do: when the remote manifest
    equals the local one and no identifier is empty, every path is reported
    as current, in order, and both work lists are empty. *)
Theorem in_sync_nothing_to_do (L : dict string) :
  wf L -> nonempty_ids L ->
  plan_uploads L L = (map (fun k => Print (MCurrent k)) (keys L), []) /\
  plan_deletes L L = ([], []).
Proof.
  intros Hwf Hne. unfold plan_uploads, plan_deletes, items.
  rewrite plan_uploads_full, plan_deletes_full. cbn [app]. split.
  - f_equal.
    + unfold keys. rewrite map_map. apply map_ext_in.
      intros [p l] Hin. pose proof (In_get _ _ _ Hwf Hin) as Hg.
      unfold verdict. cbn [fst snd]. rewrite Hg, String.eqb_refl.
      destruct l; [now elim (Hne p "")|reflexivity].
    + rewrite filter_nil; [reflexivity|].
      intros [p l] Hin. pose proof (In_get _ _ _ Hwf Hin) as Hg.
      unfold needs_upload. cbn [fst snd]. rewrite Hg, String.eqb_refl.
      destruct l; [now elim (Hne p "")|reflexivity].
  - rewrite filter_nil; [reflexivity|].
    intros k Hk. unfold orphaned. apply contains_keys in Hk. now rewrite Hk.
Qed.

Lemma in_sync_nothing_to_do_witness :
  plan_uploads example_local example_local
  = ([Print (MCurrent "a.txt"); Print (MCurrent "b.txt")], []) /\
  plan_deletes example_local example_local = ([], []).
Proof.
  exact (in_sync_nothing_to_do example_local wf_example_local
           nonempty_ids_example_local).
Defined.



Lemma delete_phase_maxThreads n self E deletes :
  delete_phase (with_maxThreads n self) E deletes
  = delete_phase self E deletes.
Proof.
  induction deletes as [|d r IH]; [reflexivity|].
  cbn [delete_phase]. rewrite IH. reflexivity.
Qed.

(** X6.  The thread count matters only when there is something to upload.
    With a non-positive count and a non-empty upload list, [sync] raises
    [ValueError] right after announcing the batch, in dry-run mode as well:
    no work item is executed or previewed and the deletes are skipped.  With
    an empty upload list the run does not depend on the count. *)
Theorem thread_count_checked_on_upload self E sched L R :
  listLocalFiles self E = ret L -> listS3Objects self E = ret R ->
  (fst (reconcile L R) <> [] -> (maxThreads self <= 0)%Z ->
   snd (sync self E sched) = Some ValueError /\
   Forall (fun e => is_work e = false) (fst (sync self E sched)))
  /\ (fst (reconcile L R) = [] ->
      forall n, sync (with_maxThreads n self) E sched = sync self E sched).
Proof.
  intros HL HR. split.
  - intros Hne Hle.
    rewrite (sync_unfold self E sched L R HL HR).
    assert (Hnote : forall m, note m = true -> is_work (Print m) = false)
      by (intros []; cbv; congruence).
    pose proof (Forall_plan_uploads (fun e => is_work e = false) L R Hnote)
      as H1.
    pose proof (Forall_plan_deletes (fun e => is_work e = false) L R Hnote)
      as H2.
    unfold upload_phase, run_pool.
    destruct (fst (reconcile L R)) as [|u us]; [congruence|].
    cbn [is_nil].
    destruct (Z.leb_spec (maxThreads self) 0) as [_|Hlt]; [|lia].
    cbn [then_ fst snd app]. split; [reflexivity|].
    constructor; [reflexivity|].
    rewrite !Forall_app. repeat split; try assumption.
    now repeat constructor.
  - intros Hnil n.
    assert (HL' : listLocalFiles (with_maxThreads n self) E = ret L)
      by exact HL.
    assert (HR' : listS3Objects (with_maxThreads n self) E = ret R)
      by exact HR.
    rewrite (sync_unfold self E sched L R HL HR).
    rewrite (sync_unfold _ E sched L R HL' HR').
    rewrite Hnil, delete_phase_maxThreads. reflexivity.
Qed.

Lemma thread_count_checked_on_upload_witness :
  snd (sync (with_maxThreads 0 (example_tool true))
            (example_env example_files example_listing []) [])
  = Some ValueError /\
  Forall (fun e => is_work e = false)
    (fst (sync (with_maxThreads 0 (example_tool true))
               (example_env example_files example_listing []) [])).
Proof.
  refine (proj1 (thread_count_checked_on_upload
                   (with_maxThreads 0 (example_tool true))
                   (example_env example_files example_listing []) []
                   [("a.txt", "2c1743a391305fbf367df8e4f069f9f9");
                    ("b.txt", "987bcab01b929eb2c07877b224215c92")]
                   [("a.txt", "2c1743a391305fbf367df8e4f069f9f9");
                    ("c.txt", "d3")] _ _) _ _).
  - vm_compute. reflexivity.
  - vm_compute. reflexivity.
  - vm_compute. discriminate.
  - vm_compute. discriminate.
Defined.

(** X7.  The delete loop stops at the first failure: in a real run, when
    the deletes before an item succeed and the delete of that item raises,
    the loop raises the same after the call, without a report for the item
    and without attempting any later item. *)
Theorem delete_failure_stops_loop self E before d after e :
  dryRun self = false ->
  Forall (fun x => s3_delete E (bucketName self) (s3Key_of self x) = None)
         before ->
  s3_delete E (bucketName self) (s3Key_of self d) = Some e ->
  delete_phase self E (before ++ d :: after)
  = (flat_map (delete_events self) before
       ++ [DeleteCall (bucketName self) (s3Key_of self d)],
     Some e).
Proof.
  intros Hreal Hok Hfail.
  induction Hok as [|x r Hx _ IH].
  - cbn [app delete_phase flat_map]. unfold deleteS3Object.
    now rewrite Hreal, Hfail.
  - cbn [app delete_phase flat_map]. unfold deleteS3Object at 1.
    rewrite Hreal, Hx, IH. reflexivity.
Qed.

Lemma delete_failure_stops_loop_witness :
  delete_phase (example_tool false)
    (failing_deletes ["backup/c.txt"]
       (example_env example_files example_listing []))
    (["x.txt"] ++ "c.txt" :: ["z.txt"])
  = ([DeleteCall "bucket" "backup/x.txt"; Print (MDeleted "backup/x.txt");
      DeleteCall "bucket" "backup/c.txt"], Some ClientError).
Proof.
  apply (delete_failure_stops_loop (example_tool false)
           (failing_deletes ["backup/c.txt"]
              (example_env example_files example_listing []))
           ["x.txt"] "c.txt" ["z.txt"] ClientError).
  - reflexivity.
  - repeat constructor.
  - reflexivity.
Defined.

(** ** Dry run against real run *)

Lemma attempted_uploads_none t :
  Forall (fun e => upload_activity e = false) t -> attempted_uploads t = [].
Proof.
  induction 1 as [|e t He _ IH]; [reflexivity|].
  cbn [attempted_uploads flat_map]. fold (attempted_uploads t). rewrite IH.
  destruct e as [[]| |]; simpl in *; congruence.
Qed.

Lemma attempted_deletes_none t :
  Forall (fun e => delete_activity e = false) t -> attempted_deletes t = [].
Proof.
  induction 1 as [|e t He _ IH]; [reflexivity|].
  cbn [attempted_deletes flat_map]. fold (attempted_deletes t). rewrite IH.
  destruct e as [[]| |]; simpl in *; congruence.
Qed.

Lemma note_no_upload m : note m = true -> upload_activity (Print m) = false.
Proof. destruct m; simpl; congruence. Qed.

Lemma note_no_delete m : note m = true -> delete_activity (Print m) = false.
Proof. destruct m; simpl; congruence. Qed.

Lemma uploadFile_attempts self E f :
  attempted_uploads (fst (uploadFile self E f)) = [s3Key_of self f] /\
  attempted_deletes (fst (uploadFile self E f)) = [].
Proof.
  unfold uploadFile. destruct (dryRun self); [now split|].
  destruct (s3_upload E _ _ _); now split.
Qed.

Lemma upload_phase_attempts self E sched uploads :
  Permutation (attempted_uploads (fst (upload_phase self E sched uploads)))
    (if (maxThreads self <=? 0)%Z then [] else map (s3Key_of self) uploads)
  /\ attempted_deletes (fst (upload_phase self E sched uploads)) = [].
Proof.
  unfold upload_phase, run_pool.
  destruct uploads as [|u us]; [now destruct (maxThreads self <=? 0)%Z|].
  cbn [is_nil]. destruct (maxThreads self <=? 0)%Z; [now split|].
  cbn [fst]. set (U := u :: us).
  cbn [attempted_uploads attempted_deletes flat_map app].
  fold (attempted_uploads (pool_run sched (map fst (map (uploadFile self E) U)))).
  fold (attempted_deletes (pool_run sched (map fst (map (uploadFile self E) U)))).
  split.
  - etransitivity.
    + unfold attempted_uploads. apply Permutation_flat_map, pool_run_perm.
    + fold attempted_uploads. rewrite map_map.
      induction U as [|x U IH]; [reflexivity|].
      cbn [map concat]. unfold attempted_uploads in *.
      rewrite flat_map_app.
      fold (attempted_uploads (fst (uploadFile self E x))).
      rewrite (proj1 (uploadFile_attempts self E x)).
      cbn [app]. now apply perm_skip.
  - apply attempted_deletes_none.
    eapply Permutation_Forall; [apply Permutation_sym, pool_run_perm|].
    apply Forall_concat. rewrite map_map. apply Forall_map, Forall_forall.
    intros x _. unfold uploadFile. destruct (dryRun self);
      [|destruct (s3_upload E _ _ _)]; now repeat constructor.
Qed.

Lemma upload_phase_snd_dryRun b self E s1 s2 uploads :
  snd (upload_phase (with_dryRun b self) E s1 uploads)
  = snd (upload_phase self E s2 uploads).
Proof.
  unfold upload_phase, run_pool. destruct uploads; [reflexivity|].
  cbn [is_nil maxThreads with_dryRun].
  now destruct (maxThreads self <=? 0)%Z.
Qed.

Lemma delete_phase_attempts self E deletes :
  attempted_uploads (fst (delete_phase self E deletes)) = [] /\
  exists rest,
    map (s3Key_of self) deletes
    = attempted_deletes (fst (delete_phase self E deletes)) ++ rest /\
    (snd (delete_phase self E deletes) = None -> rest = []).
Proof.
  induction deletes as [|d r [IHu [rest [IHd IHn]]]].
  - split; [reflexivity|]. now exists [].
  - cbn [delete_phase map]. unfold deleteS3Object.
    destruct (dryRun self).
    + destruct (delete_phase self E r) as [t' res]. cbn [fst snd] in *.
      split; [exact IHu|]. exists rest.
      cbn [app attempted_deletes flat_map]. fold (attempted_deletes t').
      cbn [app]. now rewrite IHd.
    + destruct (s3_delete E _ _).
      * split; [reflexivity|].
        exists (map (s3Key_of self) r). split; [reflexivity|discriminate].
      * destruct (delete_phase self E r) as [t' res]. cbn [fst snd] in *.
        split; [exact IHu|]. exists rest.
        cbn [app attempted_deletes flat_map]. fold (attempted_deletes t').
        cbn [app]. now rewrite IHd.
Qed.

Lemma delete_phase_dry self E deletes :
  dryRun self = true ->
  delete_phase self E deletes
  = (map (fun d => Print (MDryDelete (s3Key_of self d))) deletes, None).
Proof.
  intros Hdry. induction deletes as [|d r IH]; [reflexivity|].
  cbn [delete_phase map]. unfold deleteS3Object. now rewrite Hdry, IH.
Qed.

(** X8.  The dry run previews the real run.  On the same world, whatever the
    schedules, the keys the dry run says it would upload are the keys the
    real run calls [upload_file] for, up to their order; and the keys the
    real run calls [delete_object] for are, in order, the first of the keys
    the dry run says it would delete: all of them when the real run ends
    normally. *)
Theorem dry_run_previews_real_run self E s1 s2 :
  let dry := fst (sync (with_dryRun true self) E s1) in
  let real := sync (with_dryRun false self) E s2 in
  Permutation (attempted_uploads dry) (attempted_uploads (fst real)) /\
  exists rest,
    attempted_deletes dry = attempted_deletes (fst real) ++ rest /\
    (snd real = None -> rest = []).
Proof.
  intros dry real. unfold dry, real. clear dry real.
  set (D := with_dryRun true self). set (T := with_dryRun false self).
  destruct (listLocalFiles self E) as [e|L] eqn:HL.
  { assert (H1 : sync D E s1 = ([Print MStart], Some e))
      by (unfold sync; change (listLocalFiles D E) with (listLocalFiles self E);
          now rewrite HL).
    assert (H2 : sync T E s2 = ([Print MStart], Some e))
      by (unfold sync; change (listLocalFiles T E) with (listLocalFiles self E);
          now rewrite HL).
    rewrite H1, H2. split; [reflexivity|]. exists []. now split. }
  destruct (listS3Objects self E) as [e|R] eqn:HR.
  { assert (H1 : sync D E s1 = ([Print MStart], Some e))
      by (unfold sync; change (listLocalFiles D E) with (listLocalFiles self E);
          change (listS3Objects D E) with (listS3Objects self E);
          now rewrite HL, HR).
    assert (H2 : sync T E s2 = ([Print MStart], Some e))
      by (unfold sync; change (listLocalFiles T E) with (listLocalFiles self E);
          change (listS3Objects T E) with (listS3Objects self E);
          now rewrite HL, HR).
    rewrite H1, H2. split; [reflexivity|]. exists []. now split. }
  rewrite (sync_unfold D E s1 L R HL HR), (sync_unfold T E s2 L R HL HR).
  set (U := fst (reconcile L R)). set (Dl := snd (reconcile L R)).
  pose proof (Forall_plan_uploads (fun e => upload_activity e = false)
                L R note_no_upload) as Hu1.
  pose proof (Forall_plan_deletes (fun e => upload_activity e = false)
                L R note_no_upload) as Hu2.
  pose proof (Forall_plan_uploads (fun e => delete_activity e = false)
                L R note_no_delete) as Hd1.
  pose proof (Forall_plan_deletes (fun e => delete_activity e = false)
                L R note_no_delete) as Hd2.
  assert (Hnu : attempted_uploads (fst (plan_uploads L R)
                                   ++ fst (plan_deletes L R)) = [])
    by (apply attempted_uploads_none, Forall_app; now split).
  assert (Hnd : attempted_deletes (fst (plan_uploads L R)
                                   ++ fst (plan_deletes L R)) = [])
    by (apply attempted_deletes_none, Forall_app; now split).
  set (notes := fst (plan_uploads L R) ++ fst (plan_deletes L R)) in *.
  destruct (upload_phase_attempts D E s1 U) as [PD ND].
  destruct (upload_phase_attempts T E s2 U) as [PT NT].
  pose proof (upload_phase_snd_dryRun true self E s1 s2 U) as SD.
  pose proof (upload_phase_snd_dryRun false self E s2 s2 U) as ST.
  fold D in SD. fold T in ST. rewrite <- ST in SD. clear ST.
  change (maxThreads D) with (maxThreads self) in PD.
  change (maxThreads T) with (maxThreads self) in PT.
  change (s3Key_of D) with (s3Key_of self) in PD.
  change (s3Key_of T) with (s3Key_of self) in PT.
  assert (PU : Permutation
                 (attempted_uploads (fst (upload_phase D E s1 U)))
                 (attempted_uploads (fst (upload_phase T E s2 U))))
    by (etransitivity; [exact PD|now apply Permutation_sym]).
  destruct (upload_phase D E s1 U) as [tu1 r1].
  destruct (upload_phase T E s2 U) as [tu2 r2].
  cbn [fst snd] in *. subst r1.
  destruct (delete_phase_attempts T E Dl) as [DU [rest [DD DN]]].
  rewrite (delete_phase_dry D E Dl eq_refl).
  change (s3Key_of D) with (s3Key_of self).
  change (s3Key_of T) with (s3Key_of self) in DD.
  assert (Hdry : attempted_deletes
                   (map (fun d => Print (MDryDelete (s3Key_of self d))) Dl)
                 = map (s3Key_of self) Dl).
  { induction Dl as [|d r IH] in |- *; [reflexivity|].
    cbn [map attempted_deletes flat_map app]. f_equal. exact IH. }
  assert (Hdryu : attempted_uploads
                    (map (fun d => Print (MDryDelete (s3Key_of self d))) Dl)
                  = []).
  { apply attempted_uploads_none, Forall_map, Forall_forall. reflexivity. }
  destruct (delete_phase T E Dl) as [td rd]. cbn [fst snd] in *.
  destruct r2 as [e|]; cbn [then_ fst snd app].
  - unfold attempted_uploads, attempted_deletes in *.
    cbn [flat_map app]. rewrite !flat_map_app, Hnu, Hnd, ND, NT. cbn [app].
    split; [exact PU|]. exists []. split; [reflexivity|discriminate].
  - destruct rd as [e|]; cbn [then_ fst snd app];
      unfold attempted_uploads, attempted_deletes in *;
      cbn [flat_map app]; rewrite ?flat_map_app;
      rewrite Hnu, Hnd, ND, NT, Hdry, Hdryu, DU; cbn [flat_map app];
      rewrite ?app_nil_r.
    + split; [exact PU|]. exists rest. split; [exact DD|discriminate].
    + split; [exact PU|]. exists rest. split; [|intros _; now apply DN].
      rewrite DD. reflexivity.
Qed.

(** ** Order inside the pool *)

Lemma nth_error_update_nth_eq {A} (l : list A) i v old :
  nth_error l i = Some old -> nth_error (update_nth i v l) i = Some v.
Proof.
  revert i. induction l as [|x l IH]; intros [|i] H; simpl in *;
    try discriminate; [reflexivity|now apply IH].
Qed.

Lemma nth_error_update_nth_neq {A} (l : list A) i j v :
  i <> j -> nth_error (update_nth i v l) j = nth_error l j.
Proof.
  revert i j. induction l as [|x l IH]; intros [|i] [|j] H; simpl;
    try reflexivity; try congruence.
  apply IH. congruence.
Qed.

Lemma concat_before {A} (tasks : list (list A)) : forall x e y,
  concat tasks = x ++ e :: y ->
  exists i a b, nth_error tasks i = Some (a ++ e :: b) /\ incl a x.
Proof.
  induction tasks as [|t ts IH]; intros x e y H; simpl in H.
  - destruct x; discriminate.
  - apply app_eq_app in H as [l [[Ht Hl]|[Hx Hl]]].
    + destruct l as [|e' l'].
      * simpl in Hl. rewrite app_nil_r in Ht. subst t.
        destruct (IH [] e y (eq_sym Hl)) as [i [a [b [Hn Hi]]]].
        exists (S i), a, b. split; [exact Hn|].
        intros z Hz. destruct (Hi z Hz).
      * simpl in Hl. injection Hl as <- _.
        exists 0, x, l'. split; [now subst t|apply incl_refl].
    + destruct (IH l e y Hl) as [i [a [b [Hn Hi]]]].
      exists (S i), a, b. split; [exact Hn|].
      subst x. now apply incl_appr.
Qed.

(** An event that the pool emits belongs to a task, and what precedes it in
    its task has been emitted before. *)
Lemma pool_run_before sched : forall tasks x e y,
  pool_run sched tasks = x ++ e :: y ->
  exists i a b, nth_error tasks i = Some (a ++ e :: b) /\ incl a x.
Proof.
  induction sched as [|i sched IH]; intros tasks x e y H; simpl in H.
  - now apply (concat_before tasks x e y).
  - destruct (nth_error tasks i) as [[|e0 rest]|] eqn:Hn;
      try now apply (IH tasks x e y).
    destruct x as [|x0 x]; simpl in H; injection H as <- H.
    + exists i, [], rest. split; [exact Hn|apply incl_nil_l].
    + destruct (IH _ x e y H) as [j [a [b [Hj Hi]]]].
      destruct (Nat.eq_dec i j) as [Heq|Hij].
      * subst j.
        pose proof (eq_trans
                      (eq_sym (nth_error_update_nth_eq tasks i rest _ Hn)) Hj)
          as Hr.
        injection Hr as ->.
        exists i, (e0 :: a), b. split; [exact Hn|].
        intros z [<-|Hz]; [now left|right; now apply Hi].
      * pose proof (eq_trans
                      (eq_sym (nth_error_update_nth_neq tasks i j rest Hij))
                      Hj) as Hr.
        exists j, a, b. split; [exact Hr|]. now apply incl_tl.
Qed.

Lemma elt_in_middle (P : event -> bool) A : forall B C x e y,
  Forall (fun z => P z = false) A -> Forall (fun z => P z = false) C ->
  P e = true ->
  A ++ B ++ C = x ++ e :: y ->
  exists x' y', B = x' ++ e :: y' /\ x = A ++ x'.
Proof.
  induction A as [|a A IH]; intros B C x e y HA HC He H.
  - simpl in H. clear HA. revert x H.
    induction B as [|b B IHB]; intros x H; simpl in H.
    + exfalso. rewrite H in HC. apply Forall_app in HC as [_ HC].
      inversion HC; congruence.
    + destruct x as [|x0 x]; simpl in H; injection H as <- H.
      * now exists [], B.
      * destruct (IHB x H) as [x' [y' [-> Hx]]].
        exists (b :: x'), y'. split; [reflexivity|]. simpl in *. now f_equal.
  - inversion HA as [|? ? Ha HA']; subst.
    destruct x as [|x0 x]; simpl in H; injection H as <- H; [congruence|].
    destruct (IH B C x e y HA' HC He H) as [x' [y' [-> ->]]].
    now exists x', y'.
Qed.

(** X9.  A success line follows its call: whatever the schedule of the
    pool, when a run prints that a key was uploaded, it has called
    [upload_file] for that key before, and the client accepted that call. *)
Theorem upload_report_follows_call self E sched x k y :
  fst (sync self E sched) = x ++ Print (MUploaded k) :: y ->
  exists localFile,
    k = s3Key_of self localFile /\
    In (upload_call self localFile) x /\
    upload_result self E localFile = None.
Proof.
  intros H.
  destruct (listLocalFiles self E) as [e|L] eqn:HL.
  { unfold sync in H. rewrite HL in H. simpl in H.
    destruct x as [|? [|? ?]]; discriminate. }
  destruct (listS3Objects self E) as [e|R] eqn:HR.
  { unfold sync in H. rewrite HL, HR in H. simpl in H.
    destruct x as [|? [|? ?]]; discriminate. }
  rewrite (sync_unfold self E sched L R HL HR), !then_fst in H.
  cbn [fst snd] in H.
  set (U := fst (reconcile L R)) in *.
  set (up := upload_phase self E sched U) in *.
  set (tail := match snd up with
               | Some _ => []
               | None =>
                   fst (delete_phase self E (snd (reconcile L R))) ++
                   match snd (delete_phase self E (snd (reconcile L R))) with
                   | Some _ => []
                   | None => [Print MDone]
                   end
               end) in *.
  assert (Htail : Forall (fun z => upload_activity z = false) tail).
  { unfold tail. destruct (snd up); [constructor|].
    apply Forall_app. split.
    - apply Forall_delete_phase. intros f _. unfold deleteS3Object.
      destruct (dryRun self); [now repeat constructor|].
      destruct (s3_delete E _ _); now repeat constructor.
    - destruct (snd (delete_phase _ _ _)); now repeat constructor. }
  assert (Hhead : Forall (fun z => upload_activity z = false)
                    ([Print MStart] ++ fst (plan_uploads L R)
                     ++ fst (plan_deletes L R))).
  { constructor; [reflexivity|]. apply Forall_app. split.
    - apply Forall_plan_uploads, note_no_upload.
    - apply Forall_plan_deletes, note_no_upload. }
  assert (Hshape : [Print MStart] ++
                   (fst (plan_uploads L R) ++ fst (plan_deletes L R)) ++
                   fst up ++ tail
                   = ([Print MStart] ++ fst (plan_uploads L R)
                      ++ fst (plan_deletes L R)) ++ fst up ++ tail)
    by now rewrite <- !app_assoc.
  rewrite Hshape in H.
  destruct (elt_in_middle upload_activity _ _ _ x (Print (MUploaded k)) y
              Hhead Htail eq_refl H) as [x' [y' [Hup ->]]].
  clear H Hshape Htail Hhead tail.
  unfold up, upload_phase, run_pool in Hup.
  destruct (is_nil U); [destruct x'; discriminate|].
  destruct (maxThreads self <=? 0)%Z;
    [destruct x' as [|? [|? ?]]; discriminate|].
  cbn [fst] in Hup.
  destruct x' as [|x0 x']; simpl in Hup; injection Hup as Hx0 Hup;
    [discriminate|].
  destruct (pool_run_before _ _ _ _ _ Hup) as [i [a [b [Hn Hi]]]].
  apply nth_error_In in Hn. rewrite map_map in Hn.
  apply in_map_iff in Hn as [f [Hf _]].
  exists f. unfold uploadFile in Hf.
  fold (localPath_of self f) in Hf. fold (upload_call self f) in Hf.
  fold (upload_result self E f) in Hf.
  destruct (dryRun self).
  { destruct a as [|? [|? ?]]; simpl in Hf; discriminate. }
  destruct (upload_result self E f) eqn:Hr.
  { destruct a as [|? [|? ?]]; simpl in Hf; discriminate. }
  destruct a as [|a0 [|a1 a]]; simpl in Hf; try discriminate.
  - injection Hf as -> -> _.
    repeat split. apply in_or_app. right. right. apply Hi. now left.
  - injection Hf as _ _ Hf. destruct a; discriminate.
Qed.

Lemma upload_report_follows_call_witness :
  exists localFile,
    "backup/b.txt" = s3Key_of (example_tool false) localFile /\
    In (upload_call (example_tool false) localFile)
       [Print MStart; Print (MCurrent "a.txt"); Print (MMissing "b.txt");
        Print (MOrphan "c.txt"); Print (MUploading 1);
        UploadCall "docs/b.txt" "bucket" "backup/b.txt"] /\
    upload_result (example_tool false)
      (example_env example_files example_listing []) localFile = None.
Proof.
  apply (upload_report_follows_call (example_tool false)
           (example_env example_files example_listing []) [] _
           "backup/b.txt"
           [DeleteCall "bucket" "backup/c.txt";
            Print (MDeleted "backup/c.txt"); Print MDone]).
  vm_compute. reflexivity.
Defined.

(** ** The remote manifest *)

(** X10.  Pages are transparent: the remote manifest depends on the
    sequence of the listed objects only, not on how the listing is cut into
    pages, and a page without contents adds nothing. *)
Theorem listing_pages_transparent self E1 E2 pages1 pages2 :
  cwd_tail E1 = cwd_tail E2 ->
  s3_pages E1 (bucketName self) (prefix self) = ret pages1 ->
  s3_pages E2 (bucketName self) (prefix self) = ret pages2 ->
  concat (map contents pages1) = concat (map contents pages2) ->
  listS3Objects self E1 = listS3Objects self E2.
Proof.
  intros Hcwd H1 H2 Hobjs. unfold listS3Objects.
  rewrite H1, H2. cbn [bind ret].
  rewrite !for_each_concat, Hobjs.
  apply for_each_ext. intros s o.
  unfold record_object, relativeKey_of, getcwd. now rewrite Hcwd.
Qed.

Lemma listing_pages_transparent_witness :
  listS3Objects (example_tool false)
    (example_env example_files example_listing [])
  = listS3Objects (example_tool false)
      (example_env example_files example_listing_one_page []).
Proof.
  apply (listing_pages_transparent (example_tool false)
           (example_env example_files example_listing [])
           (example_env example_files example_listing_one_page [])
           example_listing example_listing_one_page);
    reflexivity.
Defined.

Lemma rstrip_append c s : rstrip c (s ++ String c "") = rstrip c s.
Proof.
  induction s as [|d s IH]; simpl.
  - now rewrite Ascii.eqb_refl.
  - now rewrite IH.
Qed.

Lemma rstrip_free c s : has_char c s = false -> rstrip c s = s.
Proof.
  induction s as [|d s IH]; simpl; [reflexivity|].
  intros H. apply orb_false_iff in H as [Hd Hs].
  rewrite (IH Hs), Hd. now destruct s.
Qed.

Lemma strip_quoted s : has_char dquote s = false -> strip dquote (quoted s) = s.
Proof.
  intros H. unfold strip, quoted. cbn [lstrip]. rewrite Ascii.eqb_refl.
  destruct s as [|d s].
  - reflexivity.
  - cbn [append lstrip]. simpl in H. apply orb_false_iff in H as [Hd Hs].
    rewrite Hd.
    change (String d (s ++ String dquote ""))
      with (String d s ++ String dquote "")%string.
    rewrite rstrip_append. apply rstrip_free. simpl. now rewrite Hd, Hs.
Qed.

Lemma hex_digit_not_quote z : Ascii.eqb (MD5.hex_digit z) dquote = false.
Proof.
  unfold MD5.hex_digit. generalize (Z.to_nat z). intros n.
  do 17 (destruct n as [|n]; [reflexivity|]). reflexivity.
Qed.

Lemma hex_no_quote bs : has_char dquote (MD5.hex bs) = false.
Proof.
  induction bs as [|b bs IH]; [reflexivity|].
  cbn [MD5.hex has_char]. now rewrite !hex_digit_not_quote, IH.
Qed.

(** The identifiers of the local manifest are digests: none is empty, none
    holds a quote character. *)
Lemma listLocalFiles_digests self E L :
  listLocalFiles self E = ret L ->
  forall p l, get L p = Some l -> exists content, l = MD5.hexdigest content.
Proof.
  unfold listLocalFiles.
  set (P := fun d : dict string =>
              forall p l, get d p = Some l ->
                          exists content, l = MD5.hexdigest content).
  apply (for_each_invariant P).
  - intros s [root filenames] s' Hs.
    apply (for_each_invariant P); [|exact Hs].
    intros files filename files' Hfiles.
    destruct (relpath _ _ _) as [rel|]; [|discriminate].
    rewrite calculateMd5_spec.
    destruct (file_at E _) as [c|c e|e]; try discriminate.
    cbn [bind ret]. intros [= <-] p l. rewrite get_setitem.
    destruct (String.eqb p _); [intros [= <-]; now exists c|].
    apply Hfiles.
  - intros p l. discriminate.
Qed.

(** The entry that the last object recorded under a relative key leaves in
    the remote manifest. *)
Lemma listS3Objects_entry self E pages before o after p :
  s3_pages E (bucketName self) (prefix self) = ret pages ->
  concat (map contents pages) = before ++ o :: after ->
  Forall (fun o' => truthy (Key o') = true) (concat (map contents pages)) ->
  relativeKey_of self E (Key o) = ret p ->
  Forall (fun o' => relativeKey_of self E (Key o') <> ret p) after ->
  exists R,
    listS3Objects self E = ret R /\
    get R p = Some (strip dquote (ETag o)).
Proof.
  intros Hpages Hsplit Hkeys Hkey Hafter.
  unfold listS3Objects. rewrite Hpages. cbn [bind ret].
  rewrite for_each_concat.
  destruct (record_objects_total self E _ empty Hkeys) as [R HR].
  exists R. split; [exact HR|].
  rewrite Hsplit, for_each_app in HR.
  destruct (for_each (record_object self E) before empty) as [e|R1];
    [discriminate|].
  cbn [bind for_each] in HR. unfold record_object at 1 in HR.
  rewrite Hkey in HR. cbn [bind ret] in HR.
  rewrite (record_objects_other self E p after _ R HR Hafter), get_setitem.
  now rewrite String.eqb_refl.
Qed.

(** X11.  The tag of a plain upload compares equal.  When the listing holds
    an object whose key stands for the local path [p] and whose ETag is the
    identifier that [listLocalFiles] gives [p], in quotes, and no later
    object of the listing is recorded under [p], then [listS3Objects] records
    the identifier without the quotes, and [sync] reports [p] as current and
    puts it on neither work list. *)
Theorem quoted_digest_is_current self E sched L pages before o after p id :
  listLocalFiles self E = ret L ->
  get L p = Some id ->
  s3_pages E (bucketName self) (prefix self) = ret pages ->
  concat (map contents pages) = before ++ o :: after ->
  Forall (fun o' => truthy (Key o') = true) (concat (map contents pages)) ->
  Key o = key_under (prefix self) p ->
  ETag o = quoted id ->
  (truthy (prefix self) = true -> is_normalized p = true) ->
  Forall (fun o' => relativeKey_of self E (Key o') <> ret p) after ->
  exists R,
    listS3Objects self E = ret R /\
    get R p = Some id /\
    In (Print (MCurrent p)) (fst (sync self E sched)) /\
    ~ In p (fst (reconcile L R)) /\
    ~ In p (snd (reconcile L R)).
Proof.
  intros HL Hid Hpages Hsplit Hkeys Hkey Htag Hp Hafter.
  assert (Hrk : relativeKey_of self E (Key o) = ret p)
    by (rewrite Hkey; now apply relativeKey_of_key_under).
  destruct (listS3Objects_entry self E pages before o after p
              Hpages Hsplit Hkeys Hrk Hafter) as [R [HR Hget]].
  destruct (listLocalFiles_digests self E L HL p id Hid) as [content Hc].
  assert (Hget' : get R p = Some id).
  { rewrite Hget, Htag, Hc. f_equal. apply strip_quoted, hex_no_quote. }
  assert (Hne : truthy id = true).
  { destruct id; [|reflexivity]. now elim (hexdigest_nonempty content). }
  assert (Hverdict : verdict R (p, id) = MCurrent p).
  { unfold verdict. cbn [fst snd].
    now rewrite Hget', Hne, String.eqb_refl. }
  destruct (listLocalFiles_manifest self E L HL) as [HwfL _].
  exists R. split; [exact HR|]. split; [exact Hget'|]. split; [|split].
  - rewrite (sync_unfold self E sched L R HL HR), !then_fst. cbn [fst snd].
    apply in_or_app. right. apply in_or_app. left. apply in_or_app. left.
    unfold plan_uploads, items. rewrite plan_uploads_full. cbn [fst app].
    rewrite <- Hverdict.
    apply (in_map (fun item => Print (verdict R item)) L (p, id)).
    now apply get_In.
  - rewrite (in_uploads L R p HwfL). intros [l [Hl Hn]].
    rewrite Hid in Hl. injection Hl as <-.
    unfold needs_upload in Hn. cbn [fst snd] in Hn.
    now rewrite Hget', Hne, String.eqb_refl in Hn.
  - rewrite in_deletes. intros [_ Hc'].
    apply contains_false in Hc'. congruence.
Qed.

Lemma quoted_digest_is_current_witness :
  exists R,
    listS3Objects (example_tool false)
      (example_env example_files example_listing []) = ret R /\
    get R "a.txt" = Some "2c1743a391305fbf367df8e4f069f9f9" /\
    In (Print (MCurrent "a.txt"))
      (fst (sync (example_tool false)
              (example_env example_files example_listing []) [])) /\
    ~ In "a.txt"
        (fst (reconcile
                [("a.txt", "2c1743a391305fbf367df8e4f069f9f9");
                 ("b.txt", "987bcab01b929eb2c07877b224215c92")] R)) /\
    ~ In "a.txt"
        (snd (reconcile
                [("a.txt", "2c1743a391305fbf367df8e4f069f9f9");
                 ("b.txt", "987bcab01b929eb2c07877b224215c92")] R)).
Proof.
  apply (quoted_digest_is_current (example_tool false)
           (example_env example_files example_listing []) []
           [("a.txt", "2c1743a391305fbf367df8e4f069f9f9");
            ("b.txt", "987bcab01b929eb2c07877b224215c92")]
           example_listing []
           (mkObj "backup/a.txt" (quoted "2c1743a391305fbf367df8e4f069f9f9"))
           [mkObj "backup/c.txt" (quoted "d3")] "a.txt"
           "2c1743a391305fbf367df8e4f069f9f9").
  - vm_compute. reflexivity.
  - reflexivity.
  - reflexivity.
  - vm_compute. reflexivity.
  - repeat constructor.
  - reflexivity.
  - reflexivity.
  - intros _. reflexivity.
  - repeat constructor. vm_compute. discriminate.
Defined.

(** ** Keys of the bucket *)

Lemma replace_append a b x y :
  replace a b (x ++ y) = (replace a b x ++ replace a b y)%string.
Proof. induction x as [|c x IH]; simpl; [reflexivity|now rewrite IH]. Qed.

Lemma append_inv_head (x y z : string) :
  (x ++ y)%string = (x ++ z)%string -> y = z.
Proof.
  induction x as [|c x IH]; simpl; [easy|]. intros [= H]. now apply IH.
Qed.

(** Two normalized relative paths with the same key in the bucket are the
    same path. *)
Lemma s3Key_of_injective self p q :
  is_normalized p = true -> is_normalized q = true ->
  s3Key_of self p = s3Key_of self q -> p = q.
Proof.
  intros Hp Hq. unfold s3Key_of, join2.
  pose proof (is_normalized_not_abs p Hp) as Ap.
  pose proof (is_normalized_not_abs q Hq) as Aq.
  unfold isabs in Ap, Aq. rewrite Ap, Aq.
  pose proof (is_normalized_no_backslash p Hp) as Bp.
  pose proof (is_normalized_no_backslash q Hq) as Bq.
  destruct (truthy (prefix self)); [|easy]. cbn [negb orb].
  destruct (endswith sep (prefix self)); rewrite !replace_append;
    cbn [replace]; rewrite ?replace_append;
    rewrite (replace_free _ _ p Bp), (replace_free _ _ q Bq); intros H.
  - now apply append_inv_head in H.
  - apply append_inv_head in H. now injection H.
Qed.

(** The keys that a run uploads or would upload are those of its upload
    phase. *)
Lemma sync_attempted_uploads self E sched L R :
  listLocalFiles self E = ret L -> listS3Objects self E = ret R ->
  attempted_uploads (fst (sync self E sched))
  = attempted_uploads (fst (upload_phase self E sched (fst (reconcile L R)))).
Proof.
  intros HL HR.
  rewrite (sync_unfold self E sched L R HL HR), !then_fst. cbn [fst snd].
  pose proof (Forall_plan_uploads (fun e => upload_activity e = false)
                L R note_no_upload) as Hu1.
  pose proof (Forall_plan_deletes (fun e => upload_activity e = false)
                L R note_no_upload) as Hu2.
  apply attempted_uploads_none in Hu1, Hu2.
  destruct (delete_phase_attempts self E (snd (reconcile L R))) as [DU _].
  unfold attempted_uploads in *. rewrite !flat_map_app, Hu1, Hu2.
  cbn [flat_map app].
  destruct (snd (upload_phase self E sched (fst (reconcile L R))));
    [now rewrite app_nil_r|].
  rewrite flat_map_app, DU. cbn [app].
  destruct (snd (delete_phase self E (snd (reconcile L R))));
    cbn [flat_map app]; now rewrite app_nil_r.
Qed.

(** X12.  No upload of a run overwrites another, when the paths of the
    local manifest are normalized: the paths on the upload list are then
    stored under pairwise distinct keys, and [sync] calls [upload_file], or
    previews it, at most once for a key.  (Without the hypothesis two paths
    can share a key: [os.path.join] drops the prefix before a path that
    starts with a separator.) *)
Theorem uploads_have_distinct_keys self E sched L R :
  listLocalFiles self E = ret L ->
  listS3Objects self E = ret R ->
  Forall (fun p => is_normalized p = true) (keys L) ->
  NoDup (map (s3Key_of self) (fst (reconcile L R))) /\
  NoDup (attempted_uploads (fst (sync self E sched))).
Proof.
  intros HL HR Hnorm.
  destruct (listLocalFiles_manifest self E L HL) as [HwfL _].
  assert (Hkeys : NoDup (map (s3Key_of self) (fst (reconcile L R)))).
  { apply NoDup_map_NoDup_ForallPairs.
    - intros p q Hp Hq. rewrite Forall_forall in Hnorm.
      apply s3Key_of_injective; apply Hnorm.
      + apply (in_uploads L R p HwfL) in Hp as [l [Hl _]].
        apply get_In in Hl. now apply (in_map fst) in Hl.
      + apply (in_uploads L R q HwfL) in Hq as [l [Hl _]].
        apply get_In in Hl. now apply (in_map fst) in Hl.
    - rewrite reconcile_filter. cbn [fst].
      now apply NoDup_map_fst_filter. }
  split; [exact Hkeys|].
  rewrite (sync_attempted_uploads self E sched L R HL HR).
  destruct (upload_phase_attempts self E sched (fst (reconcile L R)))
    as [Hperm _].
  apply (Permutation_NoDup (Permutation_sym Hperm)).
  destruct (maxThreads self <=? 0)%Z; [constructor|exact Hkeys].
Qed.

Lemma uploads_have_distinct_keys_witness :
  NoDup (map (s3Key_of (example_tool false))
           (fst (reconcile
                   [("a.txt", "2c1743a391305fbf367df8e4f069f9f9");
                    ("b.txt", "987bcab01b929eb2c07877b224215c92")]
                   [("c.txt", "d3")]))) /\
  NoDup (attempted_uploads
           (fst (sync (example_tool false)
                   (example_env example_files
                      [Some [mkObj "backup/c.txt" (quoted "d3")]] [])
                   [1; 0; 0; 1]))).
Proof.
  apply (uploads_have_distinct_keys (example_tool false)
           (example_env example_files
              [Some [mkObj "backup/c.txt" (quoted "d3")]] [])
           [1; 0; 0; 1]
           [("a.txt", "2c1743a391305fbf367df8e4f069f9f9");
            ("b.txt", "987bcab01b929eb2c07877b224215c92")]
           [("c.txt", "d3")]).
  - vm_compute. reflexivity.
  - vm_compute. reflexivity.
  - repeat constructor.
Defined.

(** Without the hypothesis two uploads of a run can go to one key: a file
    name may hold backslashes, which the manifest turns into separators, and
    [os.path.join] drops the prefix before a path that starts with one. *)
Lemma unnormalized_paths_share_key :
  let self := mkTool "docs" "bucket" "/backup" false 5 in
  let E := mkEnv "home/user" (fun _ => [("docs", ["x"; "\backup\x"])])
             (fun _ => Regular []) (fun _ _ => ret [])
             (fun _ _ _ => None) (fun _ _ => None) in
  exists L,
    listLocalFiles self E = ret L /\
    keys L = ["x"; "/backup/x"] /\
    map (s3Key_of self) (fst (reconcile L [])) = ["/backup/x"; "/backup/x"].
Proof. vm_compute. eexists. repeat split. Qed.

(** ** The local manifest of a clean tree *)

Lemma listLocalFiles_loops self E :
  listLocalFiles self E
  = for_each
      (fun files dir =>
         for_each (record_file self E (fst dir)) (snd dir) files)
      (walk E (localFolder self)) empty.
Proof.
  unfold listLocalFiles. apply for_each_ext.
  intros s [root filenames]. reflexivity.
Qed.

Lemma is_normalized_no_trailing_sep d :
  is_normalized d = true -> endswith sep d = false.
Proof.
  intros Hd. destruct (endswith sep d) eqn:He; [|reflexivity].
  apply endswith_inv in He as [d' ->].
  unfold is_normalized in Hd.
  rewrite split_append_sep, forallb_app in Hd.
  apply andb_true_iff in Hd as [_ Hd]. discriminate.
Qed.

Lemma is_normalized_key_under d name :
  (truthy d = true -> is_normalized d = true) ->
  is_normalized name = true ->
  is_normalized (key_under d name) = true.
Proof.
  intros Hd Hn. unfold key_under.
  destruct (truthy d) eqn:Ht; [|assumption].
  specialize (Hd eq_refl). unfold join2.
  pose proof (is_normalized_not_abs name Hn) as Ha. unfold isabs in Ha.
  rewrite Ha, Ht, (is_normalized_no_trailing_sep d Hd). cbn [negb orb].
  unfold is_normalized in *.
  rewrite split_append_sep, forallb_app. now rewrite Hd, Hn.
Qed.

(** The path of a file of the tree, as the walk and as [uploadFile] build
    it. *)
Lemma fullPath_of_key top d name :
  truthy top = true ->
  (truthy d = true -> is_normalized d = true) ->
  is_normalized name = true ->
  join2 (root_of top d) name = join2 top (key_under d name).
Proof.
  intros Htop Hd Hn. unfold root_of, key_under.
  destruct (truthy d) eqn:Ht; [|reflexivity].
  symmetry. apply join2_assoc; try assumption.
  - apply is_normalized_not_abs. now apply Hd.
  - now apply is_normalized_not_abs.
Qed.

Lemma record_file_clean self E d name files content :
  truthy (localFolder self) = true ->
  (truthy d = true -> is_normalized d = true) ->
  is_normalized name = true ->
  file_at E (join2 (localFolder self) (key_under d name)) = Regular content ->
  record_file self E (root_of (localFolder self) d) files name
  = ret (setitem files (key_under d name) (MD5.hexdigest content)).
Proof.
  intros Htop Hd Hn Hfile. unfold record_file.
  rewrite (fullPath_of_key _ d name Htop Hd Hn).
  pose proof (is_normalized_key_under d name Hd Hn) as Hk.
  unfold getcwd. rewrite (relpath_join2 _ _ _ Htop Hk).
  rewrite (replace_free _ _ _ (is_normalized_no_backslash _ Hk)).
  rewrite calculateMd5_spec, Hfile. reflexivity.
Qed.

Lemma clean_dir_spec dir :
  clean_dir dir = true ->
  (truthy (fst dir) = true -> is_normalized (fst dir) = true) /\
  forallb is_normalized (snd dir) = true.
Proof.
  unfold clean_dir. intros H. apply andb_true_iff in H as [H1 H2].
  split; [|assumption]. intros Ht. now rewrite Ht in H1.
Qed.

(** X13.  The manifest of a clean tree.  When the folder has a name, the
    walk visits directories with normalized relative paths and file names,
    every file reads without error and no two files have the same relative
    path, the local manifest lists the files in the order of the walk, each
    under its relative path with forward slashes and with the MD5 digest of
    its content. *)
Theorem listLocalFiles_clean_tree self E dirs content :
  truthy (localFolder self) = true ->
  walk E (localFolder self) = tree_walk (localFolder self) dirs ->
  forallb clean_dir dirs = true ->
  NoDup (tree_paths dirs) ->
  (forall rel, In rel (tree_paths dirs) ->
     file_at E (join2 (localFolder self) rel) = Regular (content rel)) ->
  listLocalFiles self E
  = ret (map (fun rel => (rel, MD5.hexdigest (content rel)))
           (tree_paths dirs)).
Proof.
  intros Htop Hwalk Hclean Hnd Hfiles.
  rewrite listLocalFiles_loops, Hwalk.
  set (entry := fun rel => (rel, MD5.hexdigest (content rel))).
  assert (Hdir : forall d names done,
             (truthy d = true -> is_normalized d = true) ->
             forallb is_normalized names = true ->
             NoDup (done ++ map (key_under d) names) ->
             (forall n, In n names ->
                file_at E (join2 (localFolder self) (key_under d n))
                = Regular (content (key_under d n))) ->
             for_each (record_file self E (root_of (localFolder self) d))
               names (map entry done)
             = ret (map entry (done ++ map (key_under d) names))).
  { intros d names. induction names as [|n names IH];
      intros done Hd Hn Hnd' Hf.
    - simpl. now rewrite app_nil_r.
    - simpl in Hn. apply andb_true_iff in Hn as [Hn Hns].
      cbn [for_each map].
      rewrite (record_file_clean self E d n _ (content (key_under d n)));
        try assumption; [|apply Hf; now left].
      cbn [bind ret]. rewrite setitem_fresh.
      + replace (map entry done
                 ++ [(key_under d n, MD5.hexdigest (content (key_under d n)))])
          with (map entry (done ++ [key_under d n]))
          by now rewrite map_app.
        rewrite IH; try assumption.
        * now rewrite <- app_assoc.
        * now rewrite <- app_assoc.
        * intros m Hm. apply Hf. now right.
      + unfold keys. rewrite map_map. cbn [entry fst]. rewrite map_id.
        cbn [map] in Hnd'. apply NoDup_remove_2 in Hnd'.
        intros Hin. apply Hnd'. apply in_or_app. now left. }
  change (@empty string) with (map entry []).
  assert (H : forall todo done,
             forallb clean_dir todo = true ->
             NoDup (done ++ tree_paths todo) ->
             (forall rel, In rel (tree_paths todo) ->
                file_at E (join2 (localFolder self) rel)
                = Regular (content rel)) ->
             for_each
               (fun files dir =>
                  for_each (record_file self E (fst dir)) (snd dir) files)
               (tree_walk (localFolder self) todo) (map entry done)
             = ret (map entry (done ++ tree_paths todo))).
  { induction todo as [|[d names] todo IH]; intros done Hc Hnd' Hf.
    - simpl. now rewrite app_nil_r.
    - simpl in Hc. apply andb_true_iff in Hc as [Hc Hcs].
      apply clean_dir_spec in Hc as [Hd Hn]. cbn [fst snd] in Hd, Hn.
      change (tree_walk (localFolder self) ((d, names) :: todo))
        with ((root_of (localFolder self) d, names)
                :: tree_walk (localFolder self) todo).
      change (tree_paths ((d, names) :: todo))
        with (map (key_under d) names ++ tree_paths todo) in *.
      cbn [for_each fst snd].
      rewrite app_assoc in Hnd'.
      rewrite (Hdir d names done Hd Hn).
      + cbn [bind ret]. rewrite IH; try assumption.
        * now rewrite <- app_assoc.
        * intros rel Hrel. apply Hf. apply in_or_app. now right.
      + now apply NoDup_app_remove_r in Hnd'.
      + intros n Hin. apply Hf. apply in_or_app. left. now apply in_map. }
  apply (H dirs []); assumption.
Qed.

Lemma listLocalFiles_clean_tree_witness :
  listLocalFiles (example_tool false)
    (example_env example_files example_listing [])
  = ret [("a.txt", MD5.hexdigest (bytes_of_string "alpha"));
         ("b.txt", MD5.hexdigest (bytes_of_string "beta"))].
Proof.
  refine (listLocalFiles_clean_tree (example_tool false)
            (example_env example_files example_listing [])
            [("", ["a.txt"; "b.txt"])]
            (fun rel => if String.eqb rel "a.txt"
                        then bytes_of_string "alpha"
                        else bytes_of_string "beta")
            eq_refl eq_refl eq_refl _ _).
  - simpl. repeat constructor; simpl; intuition discriminate.
  - intros rel [<-|[<-|[]]]; reflexivity.
Defined.

Lemma In_setitem {V} (d : dict V) k v k' v' :
  In (k', v') (setitem d k v) -> (k', v') = (k, v) \/ In (k', v') d.
Proof.
  induction d as [|[k0 v0] r IH]; simpl.
  - intros [H|[]]. left. now symmetry.
  - destruct (String.eqb_spec k k0) as [->|_].
    + intros [H|H]; [left; now symmetry|right; now right].
    + intros [H|H]; [right; now left|].
      destruct (IH H) as [H'|H']; [now left|right; now right].
Qed.

(** Every entry of the local manifest comes from a file of the walk: its
    key is the relative path computed for the file, its identifier the
    fingerprint of the file. *)
Lemma record_paths_entries self E files : forall acc L,
  for_each (record_path self E) files acc = ret L ->
  forall rel id, In (rel, id) L ->
    In (rel, id) acc \/
    exists fullPath rel0,
      In fullPath files /\
      relpath (getcwd E) fullPath (localFolder self) = Some rel0 /\
      rel = replace backslash slash rel0 /\
      calculateMd5 E fullPath = ret id.
Proof.
  induction files as [|f files IH]; intros acc L HL rel id Hin.
  - simpl in HL. injection HL as <-. now left.
  - cbn [for_each] in HL. unfold record_path at 1 in HL.
    destruct (relpath (getcwd E) f (localFolder self)) as [rel0|] eqn:Hrel;
      [|discriminate].
    destruct (calculateMd5 E f) as [e|md5] eqn:Hmd5; [discriminate|].
    cbn [bind ret] in HL.
    destruct (IH _ _ HL rel id Hin) as [Hacc|[fp [r0 [Hfp H]]]].
    + apply In_setitem in Hacc as [Heq|Hacc]; [|now left].
      injection Heq as -> ->. right. exists f, rel0.
      split; [now left|]. now repeat split.
    + right. exists fp, r0. split; [now right|exact H].
Qed.

(** The files that the walk of a clean tree yields. *)
Lemma walked_files_clean E top dirs fullPath :
  walk E top = tree_walk top dirs ->
  forallb clean_dir dirs = true ->
  In fullPath (walked_files E top) ->
  exists d name,
    fullPath = join2 (root_of top d) name /\
    (truthy d = true -> is_normalized d = true) /\
    is_normalized name = true.
Proof.
  intros Hwalk Hclean Hin. unfold walked_files in Hin.
  rewrite Hwalk in Hin. unfold tree_walk in Hin. rewrite map_map in Hin.
  cbn [fst snd] in Hin.
  apply in_concat in Hin as [l [Hl Hin]].
  apply in_map_iff in Hl as [[d names] [<- Hdir]]. cbn [fst snd] in Hin.
  apply in_map_iff in Hin as [name [<- Hname]].
  rewrite forallb_forall in Hclean.
  destruct (clean_dir_spec _ (Hclean _ Hdir)) as [Hd Hnames].
  cbn [fst snd] in Hd, Hnames. rewrite forallb_forall in Hnames.
  exists d, name. split; [reflexivity|]. split; [exact Hd|].
  now apply Hnames.
Qed.

(** X14.  The file that is uploaded is the file that was fingerprinted.  In
    a clean tree, for every entry of the manifest that [listLocalFiles]
    returns, the local path that [uploadFile] hands to the client for the
    key of the entry is the path of a file of the walk, and the identifier
    of the entry is the fingerprint that [calculateMd5] gives that path. *)
Theorem upload_reads_fingerprinted_file self E dirs L rel id :
  truthy (localFolder self) = true ->
  walk E (localFolder self) = tree_walk (localFolder self) dirs ->
  forallb clean_dir dirs = true ->
  dryRun self = false ->
  listLocalFiles self E = ret L ->
  In (rel, id) L ->
  exists localPath rest,
    fst (uploadFile self E rel)
    = UploadCall localPath (bucketName self) (s3Key_of self rel) :: rest /\
    In localPath (walked_files E (localFolder self)) /\
    calculateMd5 E localPath = ret id.
Proof.
  intros Htop Hwalk Hclean Hdry HL Hin.
  rewrite listLocalFiles_flat in HL.
  destruct (record_paths_entries self E _ _ _ HL rel id Hin)
    as [[]|[fullPath [rel0 [Hfp [Hrel [Hkey Hmd5]]]]]].
  destruct (walked_files_clean E _ dirs fullPath Hwalk Hclean Hfp)
    as [d [name [Hfull [Hd Hn]]]].
  rewrite (fullPath_of_key _ d name Htop Hd Hn) in Hfull.
  pose proof (is_normalized_key_under d name Hd Hn) as Hk.
  unfold getcwd in Hrel.
  rewrite Hfull, (relpath_join2 _ _ _ Htop Hk) in Hrel.
  injection Hrel as <-.
  rewrite (replace_free _ _ _ (is_normalized_no_backslash _ Hk)) in Hkey.
  subst rel. unfold uploadFile. rewrite Hdry, <- Hfull.
  destruct (s3_upload E fullPath (bucketName self) _);
    eexists fullPath, _; (split; [reflexivity|]); now split.
Qed.

Lemma upload_reads_fingerprinted_file_witness :
  exists localPath rest,
    fst (uploadFile (example_tool false)
           (example_env example_files example_listing []) "b.txt")
    = UploadCall localPath "bucket" (s3Key_of (example_tool false) "b.txt")
        :: rest /\
    In localPath
      (walked_files (example_env example_files example_listing []) "docs") /\
    calculateMd5 (example_env example_files example_listing []) localPath
    = ret "987bcab01b929eb2c07877b224215c92".
Proof.
  apply (upload_reads_fingerprinted_file (example_tool false)
           (example_env example_files example_listing [])
           [("", ["a.txt"; "b.txt"])]
           [("a.txt", "2c1743a391305fbf367df8e4f069f9f9");
            ("b.txt", "987bcab01b929eb2c07877b224215c92")]
           "b.txt" "987bcab01b929eb2c07877b224215c92").
  - reflexivity.
  - reflexivity.
  - reflexivity.
  - reflexivity.
  - vm_compute. reflexivity.
  - right. left. reflexivity.
Defined.

(** ** The bucket after a run *)











(** X16.  A delete goes to the key that was listed.  Without a prefix a
    listed key is recorded as it is and a delete of the recorded path names
    the same key.  With a prefix that has no backslash, the key that stands
    for a normalized path under the prefix is recorded as that path, and the
    delete of that path names that key again. *)
Theorem delete_targets_listed_key self E :
  (truthy (prefix self) = false ->
   forall key,
     relativeKey_of self E key = ret key /\ s3Key_of self key = key)
  /\ (truthy (prefix self) = true ->
      has_char backslash (prefix self) = false ->
      forall p, is_normalized p = true ->
        relativeKey_of self E (key_under (prefix self) p) = ret p /\
        s3Key_of self p = key_under (prefix self) p).
Proof.
  split.
  - intros Hpre key. unfold relativeKey_of, s3Key_of. now rewrite Hpre.
  - intros Hpre Hbs p Hp. split.
    + apply relativeKey_of_key_under. intros _. exact Hp.
    + unfold s3Key_of, key_under. rewrite Hpre.
      apply replace_free. unfold join2.
      pose proof (is_normalized_no_backslash p Hp) as Hpb.
      destruct (startswith sep p); [assumption|].
      destruct (negb (truthy (prefix self)) || endswith sep (prefix self));
        rewrite has_char_append, Hbs; simpl; [assumption|].
      exact Hpb.
Qed.

Lemma delete_targets_listed_key_witness :
  relativeKey_of (example_tool false)
    (example_env example_files example_listing [])
    (key_under "backup" "c.txt") = ret "c.txt" /\
  s3Key_of (example_tool false) "c.txt" = key_under "backup" "c.txt".
Proof.
  apply (proj2 (delete_targets_listed_key (example_tool false)
                  (example_env example_files example_listing []))
           eq_refl eq_refl "c.txt" eq_refl).
Defined.
